(** * Landing-page behaviour of [static/js/main.js]

  A shallow embedding of the four controllers that the script wires up on
  [DOMContentLoaded]: scroll reveal ([initScrollAnimations]), the quiz
  preview ([initQuizPreview]), in-page anchor scrolling
  ([initSmoothScrolling]) and the parallax background
  ([initParallaxEffects]).

  The document is modelled by the elements each controller looks up, in the
  shape its selectors see them; handlers are functions on that state, and
  the browser's event dispatch is a list of events folded over it.  Numbers
  that the script formats into style strings are IEEE binary64 values
  ([PrimFloat]), rendered as ECMAScript's [Number::toString] does. *)

From Stdlib Require Import ZArith QArith Qround String Ascii List Floats DecimalString Lia.
From stdpp Require Import list strings.

Local Open Scope string_scope.
Local Open Scope list_scope.

(** ** ECMAScript numbers *)

Module JsNumber.

(** The Number with the mathematical value [z], rounded to nearest-even. *)
Definition of_Z (z : Z) : float := SF2Prim (binary_normalize prec emax z 0 false).
Definition of_nat (n : nat) : float := of_Z (Z.of_nat n).

(** Decimal numeral of a non-negative integer. *)
Definition digits (z : Z) : string := NilZero.string_of_uint (N.to_uint (Z.to_N z)).

Fixpoint zeros (n : nat) : string :=
  match n with
  | O => EmptyString
  | S n' => String "0" (zeros n')
  end.

Definition pow10 (p : Z) : Q := Qpower (inject_Z 10) p.
Definition pow2 (e : Z) : Q := Qpower (inject_Z 2) e.

(** [rounds_to m e q]: the rational [q] rounds (to nearest, ties to even)
    to the double [m * 2^e].  The lower half-gap is halved again when [m]
    is the smallest normal significand, where the spacing changes. *)
Definition rounds_to (m : positive) (e : Z) (q : Q) : bool :=
  let below := if (Pos.eqb m (2 ^ 52) && Z.ltb (-1074) e)%bool then 1 # 4 else 1 # 2 in
  let lo := Qmult (Qminus (inject_Z (Zpos m)) below) (pow2 e) in
  let hi := Qmult (Qplus (inject_Z (Zpos m)) (1 # 2)) (pow2 e) in
  if Z.even (Zpos m)
  then (Qle_bool lo q && Qle_bool q hi)%bool
  else (negb (Qle_bool q lo) && negb (Qle_bool hi q))%bool.

(** The digit string [s] with last digit at decimal position [p] that
    round-trips to [m * 2^e], if there is one: the multiple of [10^p]
    nearest the value, the even one on a tie. *)
Definition candidate (m : positive) (e p : Z) : option Z :=
  let v := Qmult (inject_Z (Zpos m)) (pow2 e) in
  let t := Qdiv v (pow10 p) in
  let f := Qfloor t in
  let c := Qceiling t in
  let okf := (Z.ltb 0 f && rounds_to m e (Qmult (inject_Z f) (pow10 p)))%bool in
  let okc := rounds_to m e (Qmult (inject_Z c) (pow10 p)) in
  let df := Qminus t (inject_Z f) in
  let dc := Qminus (inject_Z c) t in
  match okf, okc with
  | true, true =>
      if Qeq_bool df dc then Some (if Z.even f then f else c)
      else if Qle_bool df dc then Some f else Some c
  | true, false => Some f
  | false, true => Some c
  | false, false => None
  end.

(** Fewest digits first: try decreasing positions from [p]. *)
Fixpoint shortest (fuel : nat) (m : positive) (e p : Z) : Z * Z :=
  match candidate m e p with
  | Some s => (s, p)
  | None =>
      match fuel with
      | O => (Zpos m, 0%Z)
      | S fuel' => shortest fuel' m e (p - 1)
      end
  end.

(** Layout of the digits [s * 10^p]: plain, with a point, with leading
    zeros, or exponential, by the position [n] of the decimal point. *)
Definition format (s p : Z) : string :=
  let ds := digits s in
  let k := String.length ds in
  let n := (p + Z.of_nat k)%Z in
  if (Z.leb (Z.of_nat k) n && Z.leb n 21)%bool then
    ds +:+ zeros (Z.to_nat p)
  else if (Z.ltb 0 n && Z.leb n 21)%bool then
    substring 0 (Z.to_nat n) ds +:+ "." +:+ substring (Z.to_nat n) (k - Z.to_nat n) ds
  else if (Z.ltb (-6) n && Z.leb n 0)%bool then
    "0." +:+ zeros (Z.to_nat (- n)) +:+ ds
  else
    let x := (n - 1)%Z in
    let sign := if Z.ltb x 0 then "-" else "+" in
    let mant := if Nat.eqb k 1 then ds
                else substring 0 1 ds +:+ "." +:+ substring 1 (k - 1) ds in
    mant +:+ "e" +:+ sign +:+ digits (Z.abs x).

(** [Number::toString] in radix 10, as a template literal applies it. *)
Definition to_string (x : float) : string :=
  match Prim2SF x with
  | S754_nan => "NaN"
  | S754_zero _ => "0"
  | S754_infinity s => if s then "-Infinity" else "Infinity"
  | S754_finite sg m e =>
      let top := ((Z.log2 (Zpos m) + e + 1) * 30103 / 100000 + 2)%Z in
      let '(s, p) := shortest 24 m e top in
      (if sg then "-" else EmptyString) +:+ format s p
  end.

End JsNumber.

Arguments JsNumber.to_string : simpl never.
Arguments JsNumber.of_nat : simpl never.

(** ** DOMTokenList: an element's [classList] *)

Module ClassList.

Definition t := list string.

Definition contains (c : string) (l : t) : bool := bool_decide (c ∈ l).

(** [add] appends the token unless it is already there. *)
Definition add (c : string) (l : t) : t := if contains c l then l else l ++ [c].

(** [remove] drops every occurrence of the token. *)
Definition remove (c : string) (l : t) : t := filter (λ x, x ≠ c) l.

End ClassList.

(** ** Scroll reveal *)

Module ScrollReveal.

(** An [IntersectionObserverEntry]: the observed element, as its position
    in [animatedElements], and whether it now intersects the viewport. *)
Record Entry := { target : nat; isIntersecting : bool }.

(** The observed elements, each by its class list. *)
Abbreviation Elements := (list ClassList.t).

(** Body of [entries.forEach] in the observer callback. *)
Definition onEntry (els : Elements) (entry : Entry) : Elements :=
  if isIntersecting entry
  then alter (ClassList.add "animate-in") (target entry) els
  else els.

(** The observer callback, given one batch of entries. *)
Definition callback (entries : list Entry) (els : Elements) : Elements :=
  foldl onEntry els entries.

(** Successive invocations of the callback. *)
Definition run (batches : list (list Entry)) (els : Elements) : Elements :=
  foldl (λ els entries, callback entries els) els batches.

Definition revealed (i : nat) (els : Elements) : bool :=
  match els !! i with
  | Some cl => ClassList.contains "animate-in" cl
  | None => false
  end.

End ScrollReveal.

(** ** Quiz preview *)

Module QuizPreview.

(** An [.option] element: its class list and its inline [style.transform]. *)
Record OptionEl := { classList : ClassList.t; transform : string }.

(** A [<p>] element: its [style] attribute and its [textContent]. *)
Record Paragraph := { style : string; textContent : string }.

(** The [.quiz-question] element, by the first [<p>] among its descendants.
    The page is taken to hold one such element, as the script's own lookups
    do, and the options to lie outside it. *)
Record QuizQuestionEl := { paragraph : option Paragraph }.

(** What the selectors of [initQuizPreview] and of its inner functions find
    in the document; [None] is a [querySelector] that returned [null].  The
    elements are taken to be distinct nodes, none nested in another apart
    from the paragraph inside the question element. *)
Record Page := {
  quizCard : option string;            (* .quiz-card, its style.transform *)
  options : list OptionEl;             (* .option, in document order *)
  progressFill : option string;        (* .progress-fill, its style.width *)
  progressText : option string;        (* .progress-text, its textContent *)
  quizQuestion : option QuizQuestionEl (* .quiz-question *)
}.

Definition set_quizCard (v : option string) (pg : Page) : Page :=
  {| quizCard := v; options := options pg; progressFill := progressFill pg;
     progressText := progressText pg; quizQuestion := quizQuestion pg |}.

Definition set_options (v : list OptionEl) (pg : Page) : Page :=
  {| quizCard := quizCard pg; options := v; progressFill := progressFill pg;
     progressText := progressText pg; quizQuestion := quizQuestion pg |}.

Definition set_progressFill (v : option string) (pg : Page) : Page :=
  {| quizCard := quizCard pg; options := options pg; progressFill := v;
     progressText := progressText pg; quizQuestion := quizQuestion pg |}.

Definition set_progressText (v : option string) (pg : Page) : Page :=
  {| quizCard := quizCard pg; options := options pg; progressFill := progressFill pg;
     progressText := v; quizQuestion := quizQuestion pg |}.

Definition set_quizQuestion (v : option QuizQuestionEl) (pg : Page) : Page :=
  {| quizCard := quizCard pg; options := options pg; progressFill := progressFill pg;
     progressText := progressText pg; quizQuestion := v |}.

(** [document.querySelector('.quiz-question p')]. *)
Definition questionText (pg : Page) : option Paragraph :=
  quizQuestion pg ≫= paragraph.

(** The variables the handlers close over, the timers that [setTimeout] has
    scheduled and that have not fired yet, and the document.  The counter is
    a Number that only ever holds an integer; [nat] is exact for it below
    2^53 increments. *)
Record State := {
  currentQuestion : nat;
  pendingTimeouts : nat;
  page : Page
}.

Definition totalQuestions : nat := 10.

Definition questions : list string :=
  [ "What motivates you most in life?";
    "How do you handle stress?";
    "What's your ideal weekend?";
    "How do you make decisions?";
    "What energizes you most?" ].

(** [initQuizPreview]: without a [.quiz-card] it returns before any listener
    is attached. *)
Definition initQuizPreview (pg : Page) : option State :=
  match quizCard pg with
  | None => None
  | Some _ => Some {| currentQuestion := 1; pendingTimeouts := 0; page := pg |}
  end.

Definition updateProgress (currentQuestion : nat) (pg : Page) : Page :=
  let progress :=
    (JsNumber.of_nat currentQuestion / JsNumber.of_nat totalQuestions * 100)%float in
  let pg :=
    match progressFill pg with
    | Some _ => set_progressFill (Some (JsNumber.to_string progress +:+ "%")) pg
    | None => pg
    end in
  match progressText pg with
  | Some _ =>
      set_progressText
        (Some ("Question " +:+ JsNumber.to_string (JsNumber.of_nat currentQuestion)
               +:+ " of " +:+ JsNumber.to_string (JsNumber.of_nat totalQuestions))) pg
  | None => pg
  end.

Definition resetOption (opt : OptionEl) : OptionEl :=
  {| classList := ClassList.remove "selected" (classList opt);
     transform := "translateX(0)" |}.

(** [questions[currentQuestion - 1]] assigned to [textContent]; an index
    outside the array reads [undefined], which [textContent] takes as the
    empty string. *)
Definition questionAt (currentQuestion : nat) : string :=
  match currentQuestion with
  | O => EmptyString
  | S i => default EmptyString (questions !! i)
  end.

Definition simulateNextQuestion (currentQuestion : nat) (pg : Page) : Page :=
  let pg := set_options (resetOption <$> options pg) pg in
  match quizQuestion pg with
  | Some {| paragraph := Some p |} =>
      if (currentQuestion <=? length questions)%nat
      then set_quizQuestion
             (Some {| paragraph :=
                        Some {| style := style p;
                                textContent := questionAt currentQuestion |} |}) pg
      else pg
  | _ => pg
  end.

(** The [<p>] that the markup assigned to [innerHTML] parses to. *)
Definition completeMessage : Paragraph :=
  {| style := "color: #10b981; font-weight: 600;";
     textContent := "ðŸŽ‰ Quiz Complete! Great job!" |}.

Definition showQuizComplete (pg : Page) : Page :=
  let pg :=
    match quizQuestion pg with
    | Some _ => set_quizQuestion (Some {| paragraph := Some completeMessage |}) pg
    | None => pg
    end in
  let pg :=
    match progressFill pg with
    | Some _ => set_progressFill (Some "100%") pg
    | None => pg
    end in
  match progressText pg with
  | Some _ => set_progressText (Some "Quiz Complete!") pg
  | None => pg
  end.

(** The click listener of the option at [index]; [this] is that option. *)
Definition onClick (index : nat) (st : State) : State :=
  let cleared :=
    (λ opt, {| classList := ClassList.remove "selected" (classList opt);
               transform := transform opt |}) <$> options (page st) in
  let marked :=
    alter (λ opt, {| classList := ClassList.add "selected" (classList opt);
                     transform := transform opt |}) index cleared in
  {| currentQuestion := currentQuestion st;
     pendingTimeouts := S (pendingTimeouts st);
     page := set_options marked (page st) |}.

(** The callback handed to [setTimeout]. *)
Definition onTimeout (st : State) : State :=
  let currentQuestion := S (currentQuestion st) in
  {| currentQuestion := currentQuestion;
     pendingTimeouts := pred (pendingTimeouts st);
     page := if (currentQuestion <=? totalQuestions)%nat
             then simulateNextQuestion currentQuestion
                    (updateProgress currentQuestion (page st))
             else showQuizComplete (page st) |}.

Definition onMouseEnter (st : State) : State :=
  {| currentQuestion := currentQuestion st;
     pendingTimeouts := pendingTimeouts st;
     page := set_quizCard
               ((λ _, "rotateY(0deg) rotateX(0deg) scale(1.05)") <$> quizCard (page st))
               (page st) |}.

Definition onMouseLeave (st : State) : State :=
  {| currentQuestion := currentQuestion st;
     pendingTimeouts := pendingTimeouts st;
     page := set_quizCard
               ((λ _, "rotateY(-5deg) rotateX(5deg) scale(1)") <$> quizCard (page st))
               (page st) |}.

(** What the browser can dispatch to the component: a pointer entering or
    leaving the card, a click on the option at an index, and a scheduled
    timer coming due (one second after the click that scheduled it). *)
Inductive Event :=
| MouseEnter
| MouseLeave
| Click (index : nat)
| Timeout.

(** One dispatch; [None] when the event cannot occur in this state (no such
    option, no timer pending). *)
Definition step (st : State) (ev : Event) : option State :=
  match ev with
  | MouseEnter => Some (onMouseEnter st)
  | MouseLeave => Some (onMouseLeave st)
  | Click index =>
      if decide (index < length (options (page st)))
      then Some (onClick index st)
      else None
  | Timeout =>
      match pendingTimeouts st with
      | O => None
      | S _ => Some (onTimeout st)
      end
  end.

Fixpoint run (evs : list Event) (st : State) : option State :=
  match evs with
  | [] => Some st
  | ev :: evs' => step st ev ≫= run evs'
  end.

(** A selection: a click on an option, then its delay elapsing. *)
Definition selections (picks : list nat) : list Event :=
  picks ≫= λ index, [Click index; Timeout].

(** The states of the preview, as the test in the timer callback tells them
    apart. *)
Inductive Phase :=
| AwaitingSelection (n : nat)
| Completed.

Definition phase (st : State) : Phase :=
  if (currentQuestion st <=? totalQuestions)%nat
  then AwaitingSelection (currentQuestion st)
  else Completed.

Definition isSelected (opt : OptionEl) : bool :=
  ClassList.contains "selected" (classList opt).

Definition selectedCount (pg : Page) : nat :=
  length (filter (λ opt, isSelected opt = true) (options pg)).

(** A click on the option at [index] followed by its timer coming due, when
    both can occur. *)
Definition select (index : nat) (st : State) : State := onTimeout (onClick index st).

Definition isTimeout (ev : Event) : bool :=
  match ev with
  | Timeout => true
  | _ => false
  end.

(** How many timers came due in a sequence of events. *)
Definition timeouts (evs : list Event) : nat := length (filter (λ ev, isTimeout ev = true) evs).

(** The page with one of the presentation targets missing. *)
Definition withoutProgressFill (pg : Page) : Page := set_progressFill None pg.
Definition withoutProgressText (pg : Page) : Page := set_progressText None pg.
Definition withoutQuestionText (pg : Page) : Page :=
  set_quizQuestion ((λ _, {| paragraph := None |}) <$> quizQuestion pg) pg.
Definition withoutQuizQuestion (pg : Page) : Page := set_quizQuestion None pg.

Definition onPage (f : Page → Page) (st : State) : State :=
  {| currentQuestion := currentQuestion st;
     pendingTimeouts := pendingTimeouts st;
     page := f (page st) |}.

(** The three presentation targets, as shown. *)
Definition display (pg : Page) : option string * option string * option QuizQuestionEl :=
  (progressFill pg, progressText pg, quizQuestion pg).

(** What the timer callback writes to the progress text and to the progress
    width when it raises the counter to [c]. *)
Definition shownText (c : nat) : string :=
  if (c <=? totalQuestions)%nat
  then "Question " +:+ JsNumber.to_string (JsNumber.of_nat c) +:+ " of "
       +:+ JsNumber.to_string (JsNumber.of_nat totalQuestions)
  else "Quiz Complete!".

Definition shownWidth (c : nat) : string :=
  if (c <=? totalQuestions)%nat
  then JsNumber.to_string
         (JsNumber.of_nat c / JsNumber.of_nat totalQuestions * 100)%float +:+ "%"
  else "100%".

(** The display in which every target that the page has shows the given
    content. *)
Definition shown (fill text : string) (qq : QuizQuestionEl) (pg : Page)
  : option string * option string * option QuizQuestionEl :=
  ((λ _, fill) <$> progressFill pg, (λ _, text) <$> progressText pg,
   (λ _, qq) <$> quizQuestion pg).

(** The completion display: full width, the completion text and message. *)
Definition completionDisplay (pg : Page) :=
  shown "100%" "Quiz Complete!" {| paragraph := Some completeMessage |} pg.

End QuizPreview.

(** ** Smooth scrolling for anchor links *)

Module AnchorScroll.

Inductive Exception := SyntaxError.

(** How a call ends: with a value or with an exception thrown. *)
Inductive Completion (A : Type) :=
| Normal (a : A)
| Throw (e : Exception).
Arguments Normal {A} a.
Arguments Throw {A} e.

(** The document as this controller sees it: whether it is in quirks mode,
    the elements that carry an [id], in tree order (an element is named by
    its position here), the [href] of every [<a>] that has one, and the
    result of the selector engine on selector text other than a plain
    [#identifier]. *)
Record Document := {
  quirksMode : bool;
  elementIds : list string;
  anchors : list string;
  compound : string → Completion (option nat)
}.

Definition asciiLowercase (a : ascii) : ascii :=
  let n := nat_of_ascii a in
  if ((65 <=? n) && (n <=? 90))%nat then ascii_of_nat (n + 32) else a.

Fixpoint lowercase (s : string) : string :=
  match s with
  | EmptyString => EmptyString
  | String a rest => String (asciiLowercase a) (lowercase rest)
  end.

(** Whether an element's [id] is the one an ID selector names: the same
    string, or in a quirks-mode document the same up to the case of ASCII
    letters. *)
Definition idMatches (quirks : bool) (id name : string) : bool :=
  if quirks then String.eqb (lowercase id) (lowercase name) else String.eqb id name.

Definition nameStart (a : ascii) : bool :=
  let n := nat_of_ascii a in
  ((65 <=? n) && (n <=? 90) || (97 <=? n) && (n <=? 122) || (n =? 95) || (128 <=? n))%nat.

Definition nameChar (a : ascii) : bool :=
  let n := nat_of_ascii a in
  (nameStart a || (48 <=? n) && (n <=? 57) || (n =? 45))%nat.

Fixpoint allNameChars (s : string) : bool :=
  match s with
  | EmptyString => true
  | String a rest => nameChar a && allNameChars rest
  end.

(** A CSS identifier written without escapes. *)
Definition isIdent (s : string) : bool :=
  match s with
  | String a rest =>
      if (nat_of_ascii a =? 45)%nat then
        match rest with
        | String b rest' =>
            ((nat_of_ascii b =? 45)%nat || nameStart b) && allNameChars rest'
        | EmptyString => false
        end
      else nameStart a && allNameChars rest
  | EmptyString => false
  end.

(** [document.querySelector]: [#name] finds the first element whose id
    matches the name; a bare [#] is not a selector and raises a
    [SyntaxError]; any other text is left to the engine. *)
Definition querySelector (doc : Document) (selectors : string) : Completion (option nat) :=
  match selectors with
  | String a name =>
      if (nat_of_ascii a =? 35)%nat then
        if String.eqb name EmptyString then Throw SyntaxError
        else if isIdent name
             then Normal (fst <$> list_find
                                    (λ id, idMatches (quirksMode doc) id name = true)
                                    (elementIds doc))
             else compound doc selectors
      else compound doc selectors
  | EmptyString => compound doc selectors
  end.

Record ScrollIntoViewOptions := { behavior : string; block : string }.

(** What one run of the click listener leaves behind: whether the default
    action was prevented, the [scrollIntoView] calls made, and how the
    listener ended. *)
Record Outcome := {
  defaultPrevented : bool;
  scrolledIntoView : list (nat * ScrollIntoViewOptions);
  completion : Completion unit
}.

(** [links]: the anchors that [a[href^="#"]] selects. *)
Definition initSmoothScrolling (doc : Document) : list string :=
  filter (λ href, String.prefix "#" href = true) (anchors doc).

(** The click listener of a link, by the link's [href]. *)
Definition onClick (doc : Document) (href : string) : Outcome :=
  let targetId := href in
  match querySelector doc targetId with
  | Throw e =>
      {| defaultPrevented := true; scrolledIntoView := []; completion := Throw e |}
  | Normal None =>
      {| defaultPrevented := true; scrolledIntoView := []; completion := Normal () |}
  | Normal (Some targetElement) =>
      {| defaultPrevented := true;
         scrolledIntoView := [(targetElement, {| behavior := "smooth"; block := "start" |})];
         completion := Normal () |}
  end.

End AnchorScroll.

(** ** Parallax background *)

Module Parallax.

Local Set Warnings "-inexact-float".

(** The scroll listener; [orbs] are the [.gradient-orb] elements, each by
    its inline [style.transform].  The state holds the text assigned. *)
Definition onScroll (pageYOffset : float) (orbs : list string) : list string :=
  let scrolled := pageYOffset in
  let rate := (scrolled * -0.5)%float in
  imap (λ index _,
          let speed := ((JsNumber.of_nat index + 1) * 0.1)%float in
          "translateY(" +:+ JsNumber.to_string (rate * speed)%float
          +:+ "px) rotate(" +:+ JsNumber.to_string (scrolled * 0.1)%float +:+ "deg)")
       orbs.

End Parallax.

(** ** A sample page *)

Module Sample.

(** The quiz markup at load: four options, the progress bar on question 1
    and the first question's text. *)
Definition page : QuizPreview.Page :=
  {| QuizPreview.quizCard := Some EmptyString;
     QuizPreview.options :=
       replicate 4 {| QuizPreview.classList := ["option"]; QuizPreview.transform := EmptyString |};
     QuizPreview.progressFill := Some "10%";
     QuizPreview.progressText := Some "Question 1 of 10";
     QuizPreview.quizQuestion :=
       Some {| QuizPreview.paragraph :=
                 Some {| QuizPreview.style := EmptyString;
                         QuizPreview.textContent := "What motivates you most in life?" |} |} |}.

Definition state : QuizPreview.State :=
  {| QuizPreview.currentQuestion := 1; QuizPreview.pendingTimeouts := 0;
     QuizPreview.page := page |}.

(** Three sections with ids, a navigation bar with a placeholder link. *)
Definition document : AnchorScroll.Document :=
  {| AnchorScroll.quirksMode := false;
     AnchorScroll.elementIds := ["features"; "how-it-works"; "quiz"];
     AnchorScroll.anchors := ["#"; "#features"; "#pricing"; "/about"];
     AnchorScroll.compound := λ _, AnchorScroll.Normal None |}.

(** Observed elements before any of them has entered the viewport. *)
Definition cards : ScrollReveal.Elements :=
  [["feature-card"]; ["feature-card"]; ["step"]].

End Sample.

(** ** Traces of the quiz preview *)

Module QuizTrace.

Import QuizPreview.

Definition isClick (ev : Event) : bool :=
  match ev with
  | Click _ => true
  | _ => false
  end.

Definition isHover (ev : Event) : bool :=
  match ev with
  | MouseEnter | MouseLeave => true
  | _ => false
  end.

(** How many option clicks a sequence of events holds. *)
Definition clicks (evs : list Event) : nat := length (filter (λ ev, isClick ev = true) evs).

(** The sequence with the pointer entering and leaving the card left out. *)
Definition withoutHover (evs : list Event) : list Event :=
  filter (λ ev, isHover ev = false) evs.

(** The last time the pointer entered or left the card, if it ever did. *)
Definition lastHover (evs : list Event) : option Event :=
  last (filter (λ ev, isHover ev = true) evs).

(** The state with the card's inline transform put aside. *)
Definition asideFromCard (st : State) : State := onPage (set_quizCard None) st.

(** Two options that differ at most in the "selected" token and in an
    inline transform that was reset. *)
Definition sameButSelection (opt opt' : OptionEl) : Prop :=
  (∀ c, c ≠ "selected" →
        ClassList.contains c (classList opt') = ClassList.contains c (classList opt))
  ∧ (transform opt' = transform opt ∨ transform opt' = "translateX(0)").

(** The question text, where the page has one, is the list's entry for the
    counter capped at the list's length, while the counter is a question
    number past the first. *)
Definition textFollowsList (st : State) : Prop :=
  ∀ p, questionText (page st) = Some p →
       (2 ≤ currentQuestion st ≤ totalQuestions)%nat →
       textContent p = questionAt (Nat.min (currentQuestion st) (length questions)).

End QuizTrace.

(** ** The injected style sheet *)

Module InjectedStyle.

Inductive PseudoClass := Hover | Disabled.

(** A rule with one compound selector: the classes and pseudo-classes it
    asks for, and its declarations.  A rule of the sheet with a selector
    list stands here as one rule per selector, in order. *)
Record Rule := {
  classes : list string;
  pseudoClasses : list PseudoClass;
  declarations : list (string * string)
}.

(** The text assigned to [style.textContent]. *)
Definition sheet : list Rule :=
  [ {| classes := ["feature-card"]; pseudoClasses := [];
       declarations := [("opacity", "0"); ("transform", "translateY(30px)");
                        ("transition", "all 0.6s ease")] |};
    {| classes := ["step"]; pseudoClasses := [];
       declarations := [("opacity", "0"); ("transform", "translateY(30px)");
                        ("transition", "all 0.6s ease")] |};
    {| classes := ["feature-card"; "animate-in"]; pseudoClasses := [];
       declarations := [("opacity", "1"); ("transform", "translateY(0)")] |};
    {| classes := ["step"; "animate-in"]; pseudoClasses := [];
       declarations := [("opacity", "1"); ("transform", "translateY(0)")] |};
    {| classes := ["option"; "selected"]; pseudoClasses := [];
       declarations := [("background", "var(--primary-color)"); ("color", "white");
                        ("transform", "translateX(10px)")] |};
    {| classes := ["option"]; pseudoClasses := [];
       declarations := [("transition", "all 0.3s ease"); ("cursor", "pointer")] |};
    {| classes := ["option"]; pseudoClasses := [Hover];
       declarations := [("transform", "translateX(5px)")] |};
    {| classes := ["btn"]; pseudoClasses := [Disabled];
       declarations := [("opacity", "0.7"); ("cursor", "not-allowed")] |};
    {| classes := ["btn"]; pseudoClasses := [Disabled; Hover];
       declarations := [("transform", "none")] |} ].

(** An element as the sheet's selectors see it, with its inline style. *)
Record Styled := {
  classList : ClassList.t;
  hover : bool;
  disabled : bool;
  inlineStyle : list (string * string)
}.

Definition holds (el : Styled) (p : PseudoClass) : bool :=
  match p with
  | Hover => hover el
  | Disabled => disabled el
  end.

Definition matches (r : Rule) (el : Styled) : bool :=
  forallb (λ c, ClassList.contains c (classList el)) (classes r)
  && forallb (holds el) (pseudoClasses r).

(** Classes and pseudo-classes weigh the same; the sheet has no ids and no
    type selectors. *)
Definition specificity (r : Rule) : nat := length (classes r) + length (pseudoClasses r).

(** The value a declaration block gives a property, the last one if it is
    declared more than once. *)
Fixpoint declared (property : string) (decls : list (string * string)) : option string :=
  match decls with
  | [] => None
  | (name, value) :: rest =>
      match declared property rest with
      | Some later => Some later
      | None => if String.eqb name property then Some value else None
      end
  end.

(** The cascade within the sheet: of the matching rules that declare the
    property, the most specific wins, the later one among equals. *)
Definition cascade (property : string) (el : Styled) : option (nat * string) :=
  foldl (λ best r,
           if matches r el then
             match declared property (declarations r) with
             | Some value =>
                 match best with
                 | Some (weight, _) =>
                     if (specificity r <? weight)%nat then best
                     else Some (specificity r, value)
                 | None => Some (specificity r, value)
                 end
             | None => best
             end
           else best)
        None sheet.

(** The value the element ends up with: its inline declaration if it has
    one, else what the sheet gives; [None] when neither says anything.
    Other style sheets of the page are outside this model. *)
Definition computed (property : string) (el : Styled) : option string :=
  match declared property (inlineStyle el) with
  | Some value => Some value
  | None => snd <$> cascade property el
  end.

(** A quiz option under the pointer or not; its inline style holds a
    transform once the script has assigned one.  Options are taken not to
    be disabled controls. *)
Definition ofOption (opt : QuizPreview.OptionEl) (hovered : bool) : Styled :=
  {| classList := QuizPreview.classList opt;
     hover := hovered;
     disabled := false;
     inlineStyle :=
       if String.eqb (QuizPreview.transform opt) EmptyString then []
       else [("transform", QuizPreview.transform opt)] |}.




End InjectedStyle.

(** * Properties *)

Local Open Scope nat_scope.

(** ** Class lists *)

Section ClassListFacts.

Implicit Types (c d : string) (l : ClassList.t).

Lemma contains_true c l : ClassList.contains c l = true ↔ c ∈ l.
Proof. unfold ClassList.contains. apply bool_decide_eq_true. Qed.

Lemma contains_false c l : ClassList.contains c l = false ↔ c ∉ l.
Proof. unfold ClassList.contains. apply bool_decide_eq_false. Qed.

Lemma contains_add c l : ClassList.contains c (ClassList.add c l) = true.
Proof.
  unfold ClassList.add. destruct (ClassList.contains c l) eqn:E; [done|].
  apply contains_true, elem_of_app. right. apply list_elem_of_singleton. done.
Qed.

Lemma contains_add_keeps c d l :
  ClassList.contains c l = true → ClassList.contains c (ClassList.add d l) = true.
Proof.
  rewrite !contains_true. unfold ClassList.add.
  destruct (ClassList.contains d l); [done|].
  intros H. apply elem_of_app. by left.
Qed.

Lemma add_present c l : ClassList.contains c l = true → ClassList.add c l = l.
Proof. unfold ClassList.add. by intros ->. Qed.

Lemma add_idempotent c l :
  ClassList.add c (ClassList.add c l) = ClassList.add c l.
Proof. apply add_present, contains_add. Qed.

Lemma contains_remove c l : ClassList.contains c (ClassList.remove c l) = false.
Proof.
  apply contains_false. unfold ClassList.remove.
  rewrite list_elem_of_filter. tauto.
Qed.

End ClassListFacts.

(** ** Scroll reveal *)

Section ScrollRevealFacts.

Import ScrollReveal.

Implicit Types (els : Elements) (entry : Entry) (i : nat).

Lemma revealed_onEntry els entry i :
  revealed i els = true → revealed i (onEntry els entry) = true.
Proof.
  unfold revealed, onEntry. destruct (isIntersecting entry); [|done].
  rewrite list_lookup_alter. case_decide as Hi; [subst i|done].
  destruct (els !! target entry) as [cl|]; simpl; [|done].
  apply contains_add_keeps.
Qed.

Lemma revealed_callback entries els i :
  revealed i els = true → revealed i (callback entries els) = true.
Proof.
  unfold callback. revert els.
  induction entries as [|entry entries IH]; intros els H; simpl; [done|].
  by apply IH, revealed_onEntry.
Qed.

Lemma revealed_run batches els i :
  revealed i els = true → revealed i (run batches els) = true.
Proof.
  unfold run. revert els.
  induction batches as [|entries batches IH]; intros els H; simpl; [done|].
  by apply IH, revealed_callback.
Qed.

Lemma onEntry_idempotent els entry :
  onEntry (onEntry els entry) entry = onEntry els entry.
Proof.
  unfold onEntry. destruct (isIntersecting entry); [|done].
  rewrite list_alter_alter_eq. apply list_alter_ext; [|done].
  intros cl _. apply add_idempotent.
Qed.

(** C7: once an observed element carries the reveal mark, no sequence of
    observer callbacks removes it, whatever the entries report about
    intersection (a batch saying it left the viewport included); and handling
    an entry a second time changes nothing more, the mark being added at
    most once. *)
Theorem reveal_mark_is_permanent els i batches :
  revealed i els = true →
  revealed i (run batches els) = true
  ∧ (∀ entry, target entry = i → onEntry els entry = els)
  ∧ (∀ els' entry, onEntry (onEntry els' entry) entry = onEntry els' entry).
Proof.
  intros H. split; [by apply revealed_run|]. split; [|apply onEntry_idempotent].
  intros entry <-. unfold onEntry. destruct (isIntersecting entry); [|done].
  unfold revealed in H. destruct (els !! target entry) as [cl|] eqn:E; [|done].
  apply list_eq. intros j. rewrite list_lookup_alter. case_decide as Hj; [|done].
  subst j. rewrite E. simpl. by rewrite add_present.
Qed.

Lemma reveal_mark_is_permanent_witness :
  let els := callback [{| target := 1; isIntersecting := true |}] Sample.cards in
  revealed 1 els = true
  ∧ revealed 1 (run [[{| target := 1; isIntersecting := false |}];
                     [{| target := 0; isIntersecting := true |};
                      {| target := 1; isIntersecting := true |}]] els) = true.
Proof.
  split; [reflexivity|].
  apply (reveal_mark_is_permanent _ 1 _). reflexivity.
Defined.

End ScrollRevealFacts.

(** ** Quiz preview *)

Section QuizPreviewFacts.

Import QuizPreview.

Implicit Types (pg : Page) (st : State) (ev : Event) (evs : list Event)
  (index n : nat) (picks : list nat).

(** *** Rendering of the numbers the preview formats *)

Lemma counter_text n :
  n ≤ 11 → JsNumber.to_string (JsNumber.of_nat n) = JsNumber.digits (Z.of_nat n).
Proof.
  intros H. do 12 (destruct n as [|n]; [vm_compute; reflexivity|]). lia.
Qed.

Lemma progress_width n :
  n ≤ 10 →
  JsNumber.to_string (JsNumber.of_nat n / JsNumber.of_nat totalQuestions * 100)%float
  = JsNumber.digits (10 * Z.of_nat n).
Proof.
  intros H. do 11 (destruct n as [|n]; [vm_compute; reflexivity|]). lia.
Qed.

(** *** What each inner function touches *)

Ltac by_page pg :=
  destruct pg as [card opts [fill|] [text|] [[[p|]]|]]; repeat split; reflexivity.

Lemma updateProgress_fill n pg :
  progressFill (updateProgress n pg)
  = (λ _, JsNumber.to_string
            (JsNumber.of_nat n / JsNumber.of_nat totalQuestions * 100)%float +:+ "%")
      <$> progressFill pg.
Proof. by_page pg. Qed.

Lemma updateProgress_text n pg :
  progressText (updateProgress n pg)
  = (λ _, "Question " +:+ JsNumber.to_string (JsNumber.of_nat n) +:+ " of "
          +:+ JsNumber.to_string (JsNumber.of_nat totalQuestions))
      <$> progressText pg.
Proof. by_page pg. Qed.

Lemma updateProgress_rest n pg :
  quizCard (updateProgress n pg) = quizCard pg
  ∧ options (updateProgress n pg) = options pg
  ∧ quizQuestion (updateProgress n pg) = quizQuestion pg.
Proof. by_page pg. Qed.

Lemma simulateNextQuestion_options n pg :
  options (simulateNextQuestion n pg) = resetOption <$> options pg.
Proof.
  destruct pg as [card opts fill text [[[p|]]|]]; unfold simulateNextQuestion; simpl;
    try reflexivity.
  destruct (n <=? 5)%nat; reflexivity.
Qed.

Lemma simulateNextQuestion_rest n pg :
  quizCard (simulateNextQuestion n pg) = quizCard pg
  ∧ progressFill (simulateNextQuestion n pg) = progressFill pg
  ∧ progressText (simulateNextQuestion n pg) = progressText pg.
Proof.
  destruct pg as [card opts fill text [[[p|]]|]]; unfold simulateNextQuestion; simpl;
    try done.
  destruct (n <=? 5)%nat; done.
Qed.

Lemma simulateNextQuestion_text n pg :
  questionText (simulateNextQuestion n pg)
  = if (n <=? length questions)%nat
    then (λ p, {| style := style p; textContent := questionAt n |}) <$> questionText pg
    else questionText pg.
Proof.
  destruct pg as [card opts fill text [[[p|]]|]]; unfold simulateNextQuestion; simpl;
    destruct (n <=? 5)%nat; reflexivity.
Qed.

Lemma showQuizComplete_display pg :
  display (showQuizComplete pg)
  = ((λ _, "100%") <$> progressFill pg,
     (λ _, "Quiz Complete!") <$> progressText pg,
     (λ _, {| paragraph := Some completeMessage |}) <$> quizQuestion pg).
Proof. by_page pg. Qed.

Lemma showQuizComplete_rest pg :
  quizCard (showQuizComplete pg) = quizCard pg
  ∧ options (showQuizComplete pg) = options pg.
Proof. by_page pg. Qed.

Lemma showQuizComplete_idempotent pg :
  showQuizComplete (showQuizComplete pg) = showQuizComplete pg.
Proof. by_page pg. Qed.

(** *** Single steps *)

Lemma step_Click st index :
  index < length (options (page st)) → step st (Click index) = Some (onClick index st).
Proof. intros H. unfold step. by rewrite decide_True. Qed.

Lemma step_Timeout st :
  pendingTimeouts st ≠ 0 → step st Timeout = Some (onTimeout st).
Proof. intros H. unfold step. by destruct (pendingTimeouts st). Qed.

Lemma run_app evs1 evs2 st :
  run (evs1 ++ evs2) st = run evs1 st ≫= run evs2.
Proof.
  revert st. induction evs1 as [|ev evs1 IH]; intros st; simpl; [done|].
  destruct (step st ev) as [st1|]; simpl; [apply IH|done].
Qed.

Lemma run_select st index :
  index < length (options (page st)) →
  run [Click index; Timeout] st = Some (select index st).
Proof. intros H. cbn [run]. rewrite step_Click by done. reflexivity. Qed.

Lemma onClick_length index st :
  length (options (page (onClick index st))) = length (options (page st)).
Proof. simpl. by rewrite length_alter, length_fmap. Qed.

Lemma onTimeout_length st :
  length (options (page (onTimeout st))) = length (options (page st)).
Proof.
  unfold onTimeout. cbn [page]. destruct (S (currentQuestion st) <=? totalQuestions).
  - by rewrite simulateNextQuestion_options, length_fmap, (proj1 (proj2 (updateProgress_rest _ _))).
  - by rewrite (proj2 (showQuizComplete_rest _)).
Qed.

Lemma step_length st ev st' :
  step st ev = Some st' → length (options (page st')) = length (options (page st)).
Proof.
  destruct ev; simpl.
  - intros [= <-]. by destruct st as [c k []].
  - intros [= <-]. by destruct st as [c k []].
  - case_decide; [|done]. intros [= <-]. apply onClick_length.
  - destruct (pendingTimeouts st); [done|]. intros [= <-]. apply onTimeout_length.
Qed.

Lemma select_length index st :
  length (options (page (select index st))) = length (options (page st)).
Proof. unfold select. by rewrite onTimeout_length, onClick_length. Qed.

Lemma onTimeout_progressText st :
  progressText (page (onTimeout st))
  = (λ _, shownText (S (currentQuestion st))) <$> progressText (page st).
Proof.
  unfold onTimeout, shownText. cbn [page].
  destruct (S (currentQuestion st) <=? totalQuestions).
  - by rewrite (proj2 (proj2 (simulateNextQuestion_rest _ _))), updateProgress_text.
  - by destruct (page st) as [card opts [fill|] [text|] [qq|]].
Qed.

Lemma onTimeout_progressFill st :
  progressFill (page (onTimeout st))
  = (λ _, shownWidth (S (currentQuestion st))) <$> progressFill (page st).
Proof.
  unfold onTimeout, shownWidth. cbn [page].
  destruct (S (currentQuestion st) <=? totalQuestions).
  - by rewrite (proj1 (proj2 (simulateNextQuestion_rest _ _))), updateProgress_fill.
  - by destruct (page st) as [card opts [fill|] [text|] [qq|]].
Qed.

Lemma phase_awaiting st n :
  phase st = AwaitingSelection n ↔ currentQuestion st = n ∧ n ≤ totalQuestions.
Proof.
  unfold phase. destruct (currentQuestion st <=? totalQuestions) eqn:E.
  - apply Nat.leb_le in E. split; [intros [= <-]; done | intros [-> _]; done].
  - apply Nat.leb_gt in E. split; [done | intros [<- H]; lia].
Qed.

Lemma phase_completed st :
  phase st = Completed ↔ totalQuestions < currentQuestion st.
Proof.
  unfold phase. destruct (currentQuestion st <=? totalQuestions) eqn:E.
  - apply Nat.leb_le in E. split; [done | lia].
  - apply Nat.leb_gt in E. done.
Qed.

(** C3 (amended): the timer callback run in [AwaitingSelection n] shows the
    index of the state it enters, not the one it leaves: for [n < 10] the
    width becomes (n+1)/10*100 percent, that is the numeral of 10*(n+1)
    followed by a percent sign, and the text "Question n+1 of 10"; for
    [n = 10] the state entered is [Completed], the question display becomes
    the completion message, the width "100%" and the text "Quiz Complete!".
    Each target is written only where the page has it. *)
Theorem timeout_shows_entered_state st n :
  phase st = AwaitingSelection n →
  pendingTimeouts st ≠ 0 →
  ∃ st', step st Timeout = Some st'
    ∧ (n < totalQuestions →
         phase st' = AwaitingSelection (S n)
         ∧ progressFill (page st')
           = (λ _, JsNumber.digits (10 * Z.of_nat (S n)) +:+ "%") <$> progressFill (page st)
         ∧ progressText (page st')
           = (λ _, "Question " +:+ JsNumber.digits (Z.of_nat (S n)) +:+ " of 10")
               <$> progressText (page st))
    ∧ (n = totalQuestions →
         phase st' = Completed
         ∧ display (page st')
           = ((λ _, "100%") <$> progressFill (page st),
              (λ _, "Quiz Complete!") <$> progressText (page st),
              (λ _, {| paragraph := Some completeMessage |}) <$> quizQuestion (page st))).
Proof.
  intros [Hc Hn]%phase_awaiting Hp. exists (onTimeout st).
  split; [by apply step_Timeout|]. split.
  - intros Hlt. split; [apply phase_awaiting; simpl; lia|].
    rewrite onTimeout_progressFill, onTimeout_progressText, Hc.
    unfold shownWidth, shownText.
    replace (S n <=? totalQuestions) with true by (symmetry; apply Nat.leb_le; lia).
    rewrite progress_width by (unfold totalQuestions in *; lia).
    rewrite !counter_text by (unfold totalQuestions in *; lia).
    done.
  - intros ->. split; [apply phase_completed; simpl; lia|].
    unfold onTimeout. simpl. rewrite Hc. simpl. apply showQuizComplete_display.
Qed.

Lemma timeout_shows_entered_state_witness :
  ∃ st', step (onClick 0 Sample.state) Timeout = Some st'
    ∧ phase st' = AwaitingSelection 2
    ∧ progressFill (page st') = Some "20%"
    ∧ progressText (page st') = Some "Question 2 of 10".
Proof.
  destruct (timeout_shows_entered_state (onClick 0 Sample.state) 1)
    as (st' & Hs & Hnext & _); [reflexivity | discriminate |].
  exists st'. split; [exact Hs|]. apply Hnext. unfold totalQuestions. lia.
Defined.

(** C3, as stated, at n = 1: the callback run in [AwaitingSelection 1] does
    not leave the width at "10%" and the text at "Question 1 of 10"; it
    writes "20%" and "Question 2 of 10". *)
Lemma timeout_from_question_1_shows_question_2 :
  phase (onClick 0 Sample.state) = AwaitingSelection 1
  ∧ ∃ st', step (onClick 0 Sample.state) Timeout = Some st'
      ∧ progressFill (page st') = Some "20%"
      ∧ progressText (page st') = Some "Question 2 of 10"
      ∧ ¬ (progressFill (page st') = Some "10%"
           ∧ progressText (page st') = Some "Question 1 of 10").
Proof.
  split; [reflexivity|]. eexists. split; [reflexivity|].
  split; [vm_compute; reflexivity|]. split; [vm_compute; reflexivity|].
  intros [H _]. vm_compute in H. discriminate H.
Qed.

(** *** Runs *)

Lemma shown_updateProgress n pg a b c : shown a b c (updateProgress n pg) = shown a b c pg.
Proof. by_page pg. Qed.

Lemma shown_simulateNextQuestion n pg a b c :
  shown a b c (simulateNextQuestion n pg) = shown a b c pg.
Proof.
  destruct pg as [card opts [fill|] [text|] [[[p|]]|]]; unfold simulateNextQuestion; simpl;
    try reflexivity; destruct (n <=? 5); reflexivity.
Qed.

Lemma shown_showQuizComplete pg a b c : shown a b c (showQuizComplete pg) = shown a b c pg.
Proof. by_page pg. Qed.

Lemma showQuizComplete_completionDisplay pg :
  display (showQuizComplete pg) = completionDisplay pg.
Proof. apply showQuizComplete_display. Qed.

Lemma step_shown st ev st' a b c :
  step st ev = Some st' → shown a b c (page st') = shown a b c (page st).
Proof.
  destruct ev; simpl.
  - by intros [= <-].
  - by intros [= <-].
  - case_decide; [|done]. by intros [= <-].
  - destruct (pendingTimeouts st); [done|]. intros [= <-].
    unfold onTimeout. cbn [page]. destruct (S (currentQuestion st) <=? totalQuestions).
    + by rewrite shown_simulateNextQuestion, shown_updateProgress.
    + apply shown_showQuizComplete.
Qed.

Lemma run_shown evs st st' a b c :
  run evs st = Some st' → shown a b c (page st') = shown a b c (page st).
Proof.
  revert st. induction evs as [|ev evs IH]; intros st; simpl; [by intros [= <-]|].
  destruct (step st ev) as [st1|] eqn:E; simpl; [|done].
  intros H. rewrite (IH _ H). by eapply step_shown.
Qed.

Lemma step_counter st ev st' :
  step st ev = Some st' →
  currentQuestion st' = currentQuestion st + (if isTimeout ev then 1 else 0).
Proof.
  destruct ev; simpl.
  - intros [= <-]. simpl. lia.
  - intros [= <-]. simpl. lia.
  - case_decide; [|done]. intros [= <-]. simpl. lia.
  - destruct (pendingTimeouts st); [done|]. intros [= <-]. simpl. lia.
Qed.

Lemma timeouts_cons ev evs :
  timeouts (ev :: evs) = (if isTimeout ev then 1 else 0) + timeouts evs.
Proof. unfold timeouts. rewrite filter_cons. by destruct ev. Qed.

Lemma timeouts_app evs1 evs2 : timeouts (evs1 ++ evs2) = timeouts evs1 + timeouts evs2.
Proof. unfold timeouts. by rewrite filter_app, length_app. Qed.

Lemma run_counter evs st st' :
  run evs st = Some st' → currentQuestion st' = currentQuestion st + timeouts evs.
Proof.
  revert st. induction evs as [|ev evs IH]; intros st; simpl.
  - intros [= <-]. unfold timeouts. simpl. lia.
  - destruct (step st ev) as [st1|] eqn:E; simpl; [|done].
    intros H. rewrite (IH _ H), (step_counter _ _ _ E), timeouts_cons. lia.
Qed.

Lemma run_length evs st st' :
  run evs st = Some st' → length (options (page st')) = length (options (page st)).
Proof.
  revert st. induction evs as [|ev evs IH]; intros st; simpl; [by intros [= <-]|].
  destruct (step st ev) as [st1|] eqn:E; simpl; [|done].
  intros H. rewrite (IH _ H). by eapply step_length.
Qed.

Lemma selections_cons index picks :
  selections (index :: picks) = Click index :: Timeout :: selections picks.
Proof. reflexivity. Qed.

Lemma selections_app picks1 picks2 :
  selections (picks1 ++ picks2) = selections picks1 ++ selections picks2.
Proof. unfold selections. apply bind_app. Qed.

Lemma timeouts_Click index : timeouts [Click index] = 0.
Proof. by rewrite timeouts_cons. Qed.

Lemma timeouts_selections picks : timeouts (selections picks) = length picks.
Proof.
  induction picks as [|index picks IH]; [done|].
  rewrite selections_cons, !timeouts_cons, IH. simpl. lia.
Qed.

(** Selections of options that exist can always be carried out, one after
    the other; no timer is left pending that was not pending before. *)
Lemma run_selections picks st :
  Forall (λ index, index < length (options (page st))) picks →
  ∃ st', run (selections picks) st = Some st'
    ∧ pendingTimeouts st' = pendingTimeouts st.
Proof.
  revert st. induction picks as [|index picks IH]; intros st Hp.
  - by exists st.
  - apply Forall_cons in Hp as [Hi Hp]. rewrite selections_cons.
    change (Click index :: Timeout :: selections picks)
      with ([Click index; Timeout] ++ selections picks).
    rewrite run_app, run_select by done. simpl.
    destruct (IH (select index st)) as (st' & Hr & Hk).
    { by rewrite select_length. }
    exists st'. split; [exact Hr|]. by rewrite Hk.
Qed.

(** From [Completed] onwards nothing leaves [Completed], and a page that
    shows the completion display keeps showing it. *)
Lemma completed_absorbing evs st st' :
  phase st = Completed →
  display (page st) = completionDisplay (page st) →
  run evs st = Some st' →
  phase st' = Completed ∧ display (page st') = display (page st).
Proof.
  revert st. induction evs as [|ev evs IH]; intros st Hc Hd; simpl.
  { by intros [= <-]. }
  destruct (step st ev) as [st1|] eqn:E; simpl; [|done]. intros Hr.
  assert (phase st1 = Completed) as Hc1.
  { apply phase_completed. apply phase_completed in Hc.
    rewrite (step_counter _ _ _ E). lia. }
  assert (display (page st1) = display (page st)) as Hd1.
  { apply phase_completed in Hc. destruct ev; simpl in E.
    - by injection E as <-.
    - by injection E as <-.
    - case_decide; [|done]. by injection E as <-.
    - destruct (pendingTimeouts st); [done|]. injection E as <-.
      unfold onTimeout. cbn [page].
      replace (S (currentQuestion st) <=? totalQuestions) with false
        by (symmetry; apply Nat.leb_gt; lia).
      by rewrite showQuizComplete_completionDisplay. }
  destruct (IH st1) as [H1 H2]; [done| |done|].
  { rewrite Hd1, Hd. unfold completionDisplay. symmetry. by eapply step_shown. }
  split; [done|]. by rewrite H2.
Qed.

Lemma run_snoc evs ev st st' :
  run (evs ++ [ev]) st = Some st' ↔ ∃ st1, run evs st = Some st1 ∧ step st1 ev = Some st'.
Proof.
  rewrite run_app. destruct (run evs st) as [st1|]; simpl.
  - destruct (step st1 ev) as [st2|] eqn:E; simpl.
    + split; [intros [= <-]; by exists st1 | intros (? & [= <-] & H); congruence].
    + split; [done | intros (? & [= <-] & H); congruence].
  - split; [done | by intros (? & ? & _)].
Qed.

Lemma onTimeout_completes st :
  totalQuestions ≤ currentQuestion st →
  display (page (onTimeout st)) = completionDisplay (page st).
Proof.
  intros H. unfold onTimeout. cbn [page].
  replace (S (currentQuestion st) <=? totalQuestions) with false
    by (symmetry; apply Nat.leb_gt; lia).
  apply showQuizComplete_completionDisplay.
Qed.

Lemma initQuizPreview_Some pg st0 :
  initQuizPreview pg = Some st0 →
  st0 = {| currentQuestion := 1; pendingTimeouts := 0; page := pg |} ∧ is_Some (quizCard pg).
Proof. unfold initQuizPreview. destruct (quizCard pg); [|done]. by intros [= <-]. Qed.

(** After the last of one or more selections that bring the counter past
    the question count, the page shows the completion display. *)
Lemma selections_complete picks st st' :
  run (selections picks) st = Some st' →
  picks ≠ [] →
  totalQuestions < currentQuestion st + length picks →
  display (page st') = completionDisplay (page st).
Proof.
  destruct picks as [|index picks _] using rev_ind; [done|]. intros Hr _ Hlen.
  rewrite selections_app in Hr.
  change (selections [index]) with ([Click index] ++ [Timeout]) in Hr.
  rewrite app_assoc in Hr. apply run_snoc in Hr as (st1 & Hr & Hs).
  pose proof (run_counter _ _ _ Hr) as Hc.
  rewrite timeouts_app, timeouts_selections, timeouts_Click in Hc.
  rewrite length_app in Hlen. simpl in Hlen.
  simpl in Hs. destruct (pendingTimeouts st1); [done|]. injection Hs as <-.
  rewrite onTimeout_completes by lia.
  unfold completionDisplay. by eapply run_shown.
Qed.

(** C1 (amended): from [AwaitingSelection 1], selections of existing options
    can always be carried out; after fewer than ten of them the state is
    [AwaitingSelection] of one more than their number (after nine:
    question 10), and after ten or more it is [Completed], with the
    completion display on the page.  From [Completed] no sequence of further
    events leaves [Completed] or changes that display. *)
Theorem completed_after_ten_selections pg st0 picks :
  initQuizPreview pg = Some st0 →
  Forall (λ index, index < length (options pg)) picks →
  ∃ st, run (selections picks) st0 = Some st
    ∧ phase st0 = AwaitingSelection 1
    ∧ (length picks < totalQuestions → phase st = AwaitingSelection (S (length picks)))
    ∧ (totalQuestions ≤ length picks →
         phase st = Completed ∧ display (page st) = completionDisplay pg)
    ∧ (∀ evs st', phase st = Completed → run evs st = Some st' →
         phase st' = Completed ∧ display (page st') = display (page st)).
Proof.
  intros [-> _]%initQuizPreview_Some Hp.
  destruct (run_selections picks
              {| currentQuestion := 1; pendingTimeouts := 0; page := pg |} Hp)
    as (st & Hr & _).
  exists st.
  pose proof (run_counter _ _ _ Hr) as Hc. rewrite timeouts_selections in Hc.
  simpl in Hc.
  assert (totalQuestions ≤ length picks → display (page st) = completionDisplay pg) as Hd.
  { intros Hlen. apply (selections_complete _ _ _ Hr).
    - intros ->. unfold totalQuestions in Hlen. simpl in Hlen. lia.
    - simpl. lia. }
  split; [exact Hr|]. split; [reflexivity|]. split; [|split].
  - intros Hlen. apply phase_awaiting. lia.
  - intros Hlen. split; [apply phase_completed; lia | by apply Hd].
  - intros evs st' Hph Hr'. apply (completed_absorbing evs st st' Hph); [|exact Hr'].
    apply phase_completed in Hph. rewrite Hd by lia.
    unfold completionDisplay. symmetry. apply (run_shown _ _ _ _ _ _ Hr).
Qed.

Lemma completed_after_ten_selections_witness :
  ∃ st, run (selections [0; 1; 2; 3; 0; 1; 2; 3; 0; 1]) Sample.state = Some st
    ∧ phase st = Completed.
Proof.
  destruct (completed_after_ten_selections Sample.page Sample.state
              [0; 1; 2; 3; 0; 1; 2; 3; 0; 1])
    as (st & Hr & _ & _ & Hdone & _).
  - reflexivity.
  - repeat constructor; simpl; lia.
  - exists st. split; [exact Hr|]. apply Hdone. simpl. unfold totalQuestions. lia.
Defined.

(** C1, as stated: nine selections from question 1, each with its delay
    elapsed, leave the preview awaiting the selection for question 10; it
    has not reached [Completed]. *)
Lemma nine_selections_reach_question_10 :
  initQuizPreview Sample.page = Some Sample.state
  ∧ ∃ st, run (selections [0; 1; 2; 3; 0; 1; 2; 3; 0]) Sample.state = Some st
      ∧ phase st = AwaitingSelection 10
      ∧ phase st ≠ Completed.
Proof.
  split; [reflexivity|]. eexists. split; [reflexivity|].
  split; [reflexivity|]. discriminate.
Qed.

(** The listeners stay attached after completion: a click is still handled,
    marks the clicked option and schedules a timer, which raises the counter
    once more and shows the completion display again. *)
Example click_after_completion_is_handled :
  match run (selections [0; 1; 2; 3; 0; 1; 2; 3; 0; 1]) Sample.state with
  | Some st =>
      phase st = Completed
      ∧ match run [Click 2; Timeout] st with
        | Some st' =>
            isSelected <$> options (page st') !! 2 = Some true
            ∧ currentQuestion st' = 12
            ∧ display (page st') = display (page st)
        | None => False
        end
  | None => False
  end.
Proof. vm_compute. repeat split. Qed.

(** C2 (amended): the counter starts at 1, never decreases, and is 1 plus
    the number of timers that have come due, whatever the clicks; it is at
    most [totalQuestions + 1] as long as no more than [totalQuestions]
    timers have come due. *)
Theorem counter_counts_elapsed_delays pg st0 evs1 evs2 st1 st2 :
  initQuizPreview pg = Some st0 →
  run evs1 st0 = Some st1 →
  run evs2 st1 = Some st2 →
  currentQuestion st0 = 1
  ∧ currentQuestion st1 ≤ currentQuestion st2
  ∧ currentQuestion st2 = 1 + timeouts (evs1 ++ evs2)
  ∧ (timeouts (evs1 ++ evs2) ≤ totalQuestions → currentQuestion st2 ≤ totalQuestions + 1).
Proof.
  intros [-> _]%initQuizPreview_Some H1 H2.
  pose proof (run_counter _ _ _ H1) as C1. pose proof (run_counter _ _ _ H2) as C2.
  simpl in C1. rewrite timeouts_app. repeat split; lia.
Qed.

Lemma counter_counts_elapsed_delays_witness :
  ∃ st1 st2,
    run [Click 0; Click 1; Timeout] Sample.state = Some st1
    ∧ run [MouseEnter; Timeout; Click 2] st1 = Some st2
    ∧ currentQuestion st1 ≤ currentQuestion st2
    ∧ currentQuestion st2 = 3.
Proof.
  eexists _, _. split; [reflexivity|]. split; [reflexivity|].
  destruct (counter_counts_elapsed_delays Sample.page Sample.state
              [Click 0; Click 1; Timeout] [MouseEnter; Timeout; Click 2] _ _
              eq_refl eq_refl eq_refl) as (_ & Hle & Heq & _).
  split; [exact Hle | exact Heq].
Defined.

(** C2, as stated: eleven clicks in quick succession schedule eleven
    timers; when all have come due the counter stands at 12, above
    [totalQuestions + 1]. *)
Lemma eleven_quick_clicks_pass_the_sentinel :
  initQuizPreview Sample.page = Some Sample.state
  ∧ ∃ st, run (replicate 11 (Click 0) ++ replicate 11 Timeout) Sample.state = Some st
      ∧ currentQuestion st = 12
      ∧ ¬ currentQuestion st ≤ totalQuestions + 1.
Proof.
  split; [reflexivity|]. eexists. split; [vm_compute; reflexivity|].
  split; [reflexivity|]. unfold totalQuestions. simpl. lia.
Qed.

(** *** Progress after a number of selections *)

Lemma selections_progress picks st st' :
  run (selections picks) st = Some st' →
  picks ≠ [] →
  progressFill (page st')
  = (λ _, shownWidth (currentQuestion st + length picks)) <$> progressFill (page st)
  ∧ progressText (page st')
    = (λ _, shownText (currentQuestion st + length picks)) <$> progressText (page st).
Proof.
  destruct picks as [|index picks _] using rev_ind; [done|]. intros Hr _.
  rewrite selections_app in Hr.
  change (selections [index]) with ([Click index] ++ [Timeout]) in Hr.
  rewrite app_assoc in Hr. apply run_snoc in Hr as (st1 & Hr & Hs).
  pose proof (run_counter _ _ _ Hr) as Hc.
  rewrite timeouts_app, timeouts_selections, timeouts_Click in Hc.
  pose proof (run_shown _ _ _
                (shownWidth (S (currentQuestion st1)))
                (shownText (S (currentQuestion st1)))
                {| paragraph := None |} Hr) as Hsh.
  unfold shown in Hsh. injection Hsh as Hfill Htext _.
  simpl in Hs. destruct (pendingTimeouts st1); [done|]. injection Hs as <-.
  rewrite onTimeout_progressFill, onTimeout_progressText, Hfill, Htext.
  rewrite length_app. simpl.
  by replace (currentQuestion st + (length picks + 1)) with (S (currentQuestion st1)) by lia.
Qed.

(** C4: on a page that has the quiz card, the progress bar and the progress
    text, the latter reading "Question 1 of 10" at load, the progress text
    after n selections (each with its delay elapsed) reads
    "Question n+1 of 10" for every n below 10 and "Quiz Complete!" for
    n = 10; after the first selection the width is "20%" and the text
    "Question 2 of 10". *)
Theorem progress_text_after_selections pg st0 picks :
  initQuizPreview pg = Some st0 →
  progressText pg = Some "Question 1 of 10" →
  is_Some (progressFill pg) →
  Forall (λ index, index < length (options pg)) picks →
  ∃ st, run (selections picks) st0 = Some st
    ∧ (length picks < 10 →
         progressText (page st)
         = Some ("Question " +:+ JsNumber.digits (Z.of_nat (length picks + 1)) +:+ " of 10"))
    ∧ (length picks = 10 → progressText (page st) = Some "Quiz Complete!")
    ∧ (length picks = 1 →
         progressFill (page st) = Some "20%"
         ∧ progressText (page st) = Some "Question 2 of 10").
Proof.
  intros [-> _]%initQuizPreview_Some Htext [fill Hfill] Hp.
  destruct (run_selections picks
              {| currentQuestion := 1; pendingTimeouts := 0; page := pg |} Hp)
    as (st & Hr & _).
  exists st. split; [exact Hr|].
  destruct (decide (picks = [])) as [->|Hne].
  { simpl in Hr. injection Hr as <-. simpl.
    split; [intros _; exact Htext|]. split; intros [=]. }
  destruct (selections_progress _ _ _ Hr Hne) as [Hw Ht].
  cbn [currentQuestion page] in Hw, Ht. rewrite Hfill in Hw. rewrite Htext in Ht.
  simpl in Hw, Ht. rewrite Hw, Ht. split; [|split].
  - intros Hlen. unfold shownText.
    replace (S (length picks) <=? totalQuestions) with true
      by (symmetry; apply Nat.leb_le; unfold totalQuestions; lia).
    rewrite !counter_text by (unfold totalQuestions; lia).
    by rewrite Nat.add_1_r.
  - by intros ->.
  - intros ->. split; vm_compute; reflexivity.
Qed.

Lemma progress_text_after_selections_witness :
  ∃ st, run (selections [2; 0; 3]) Sample.state = Some st
    ∧ progressText (page st) = Some "Question 4 of 10".
Proof.
  destruct (progress_text_after_selections Sample.page Sample.state [2; 0; 3])
    as (st & Hr & Hlt & _).
  - reflexivity.
  - reflexivity.
  - by eexists.
  - repeat constructor; simpl; lia.
  - exists st. split; [exact Hr|]. apply Hlt. simpl. lia.
Defined.

(** *** The selected mark *)

Lemma filter_none {A} (P : A → Prop) `{∀ x, Decision (P x)} (l : list A) :
  (∀ x, x ∈ l → ¬ P x) → filter P l = [].
Proof.
  induction l as [|x l IH]; intros Hl; [done|].
  rewrite filter_cons_False by (apply Hl; left).
  apply IH. intros y Hy. apply Hl. by right.
Qed.

(** A list in which the element at [i], and no other, satisfies [P] has
    exactly one element that does. *)
Lemma filter_single {A} (P : A → Prop) `{∀ x, Decision (P x)} (l : list A) i :
  i < length l →
  (∀ j x, l !! j = Some x → P x ↔ j = i) →
  length (filter P l) = 1.
Proof.
  revert i. induction l as [|x l IH]; intros i Hi Hl; simpl in Hi; [lia|].
  destruct i as [|i].
  - rewrite filter_cons_True by (by apply (Hl 0)).
    rewrite filter_none; [done|].
    intros y [j Hj]%list_elem_of_lookup Hy. by apply (Hl (S j)) in Hy.
  - rewrite filter_cons_False.
    + apply (IH i); [lia|]. intros j y Hj. rewrite (Hl (S j) y Hj). lia.
    + intros Hx. by apply (Hl 0) in Hx.
Qed.

Lemma onClick_marks index st j opt :
  options (page (onClick index st)) !! j = Some opt →
  isSelected opt = true ↔ j = index.
Proof.
  cbn [onClick page set_options options]. rewrite list_lookup_alter.
  case_decide as Hj.
  - subst j. rewrite list_lookup_fmap.
    destruct (options (page st) !! index) as [o|]; simpl; [|done].
    intros [= <-]. unfold isSelected. simpl. by rewrite contains_add.
  - rewrite list_lookup_fmap.
    destruct (options (page st) !! j) as [o|]; simpl; [|done].
    intros [= <-]. unfold isSelected. simpl. rewrite contains_remove. split; [done|].
    intros ->. done.
Qed.

Lemma onClick_selectedCount index st :
  index < length (options (page st)) → selectedCount (page (onClick index st)) = 1.
Proof.
  intros Hi. unfold selectedCount. apply (filter_single _ _ index).
  - by rewrite onClick_length.
  - intros j opt. apply onClick_marks.
Qed.

Lemma simulateNextQuestion_selectedCount n pg :
  selectedCount (simulateNextQuestion n pg) = 0.
Proof.
  unfold selectedCount. rewrite simulateNextQuestion_options, filter_none; [done|].
  intros opt [o [-> _]]%list_elem_of_fmap. unfold isSelected, resetOption. simpl.
  by rewrite contains_remove.
Qed.

Lemma step_selectedCount st ev st' :
  step st ev = Some st' → selectedCount (page st) ≤ 1 → selectedCount (page st') ≤ 1.
Proof.
  destruct ev; simpl.
  - by intros [= <-].
  - by intros [= <-].
  - case_decide; [|done]. intros [= <-] _. by rewrite onClick_selectedCount.
  - destruct (pendingTimeouts st); [done|]. intros [= <-] Hs.
    unfold onTimeout. cbn [page]. destruct (S (currentQuestion st) <=? totalQuestions).
    + rewrite simulateNextQuestion_selectedCount. lia.
    + unfold selectedCount in *. by rewrite (proj2 (showQuizComplete_rest _)).
Qed.

Lemma run_selectedCount evs st st' :
  run evs st = Some st' → selectedCount (page st) ≤ 1 → selectedCount (page st') ≤ 1.
Proof.
  revert st. induction evs as [|ev evs IH]; intros st; simpl; [by intros [= <-]|].
  destruct (step st ev) as [st1|] eqn:E; simpl; [|done].
  intros Hr Hs. apply (IH _ Hr). by eapply step_selectedCount.
Qed.

(** C5: on a page whose markup has at most one option marked "selected",
    no sequence of events dispatched to the preview leaves more than one
    option marked; and right after a click on an option exactly one option
    is marked, the clicked one. *)
Theorem at_most_one_option_selected pg st0 evs st :
  initQuizPreview pg = Some st0 →
  selectedCount pg ≤ 1 →
  run evs st0 = Some st →
  selectedCount (page st) ≤ 1
  ∧ ∀ index st', step st (Click index) = Some st' →
      selectedCount (page st') = 1
      ∧ ∀ j opt, options (page st') !! j = Some opt → (isSelected opt = true ↔ j = index).
Proof.
  intros [-> _]%initQuizPreview_Some Hs Hr. split.
  - by apply (run_selectedCount _ _ _ Hr).
  - intros index st'. simpl. case_decide as Hi; [|done]. intros [= <-].
    split; [by apply onClick_selectedCount | apply onClick_marks].
Qed.

Lemma at_most_one_option_selected_witness :
  ∃ st, run [Click 1; Click 3; Timeout; Click 2] Sample.state = Some st
    ∧ selectedCount (page st) ≤ 1.
Proof.
  eexists. split; [reflexivity|].
  apply (at_most_one_option_selected Sample.page Sample.state
           [Click 1; Click 3; Timeout; Click 2] _ eq_refl).
  - vm_compute. lia.
  - reflexivity.
Defined.

(** *** The question text *)

Lemma questionText_updateProgress n pg : questionText (updateProgress n pg) = questionText pg.
Proof. unfold questionText. by rewrite (proj2 (proj2 (updateProgress_rest n pg))). Qed.

(** C8: the preview holds five question strings.  The timer callback that
    raises the counter from n (at least 1) to n+1 sets the question text to
    the list's entry for question n+1 when n+1 is at most 5, that is for
    questions 2 to 5, and leaves the text as it was when n+1 is 6 to 10; and
    on a page that has the question text, the first selection makes it read
    "How do you handle stress?". *)
Theorem question_text_follows_the_list st n :
  currentQuestion st = n →
  1 ≤ n →
  pendingTimeouts st ≠ 0 →
  length questions = 5
  ∧ (∃ st', step st Timeout = Some st'
       ∧ (S n ≤ 5 →
            ∃ q, questions !! n = Some q
              ∧ questionText (page st')
                = (λ p, {| style := style p; textContent := q |}) <$> questionText (page st))
       ∧ (5 < S n ≤ totalQuestions → questionText (page st') = questionText (page st)))
  ∧ (∀ pg st0 index,
       initQuizPreview pg = Some st0 →
       index < length (options pg) →
       is_Some (questionText pg) →
       ∃ st1, run [Click index; Timeout] st0 = Some st1
         ∧ textContent <$> questionText (page st1) = Some "How do you handle stress?").
Proof.
  intros Hc Hn Hp. split; [reflexivity|]. split.
  - exists (onTimeout st). split; [by apply step_Timeout|].
    unfold onTimeout. cbn [page]. rewrite Hc. split.
    + intros Hle.
      replace (S n <=? totalQuestions) with true
        by (symmetry; apply Nat.leb_le; unfold totalQuestions; lia).
      rewrite simulateNextQuestion_text, questionText_updateProgress.
      replace (S n <=? length questions) with true
        by (symmetry; apply Nat.leb_le; simpl; lia).
      destruct (questions !! n) as [q|] eqn:Hq.
      * exists q. split; [done|]. unfold questionAt. by rewrite Hq.
      * apply lookup_ge_None in Hq. simpl in Hq. lia.
    + intros [Hgt Hle].
      replace (S n <=? totalQuestions) with true by (symmetry; by apply Nat.leb_le).
      rewrite simulateNextQuestion_text, questionText_updateProgress.
      by replace (S n <=? length questions) with false
        by (symmetry; apply Nat.leb_gt; simpl; lia).
  - intros pg st0 index [-> _]%initQuizPreview_Some Hi [p Hq].
    exists (select index {| currentQuestion := 1; pendingTimeouts := 0; page := pg |}).
    split; [by apply run_select|].
    unfold select, onTimeout. cbn [page currentQuestion onClick].
    change (2 <=? totalQuestions) with true. cbv iota.
    rewrite simulateNextQuestion_text, questionText_updateProgress.
    change (2 <=? length questions) with true. cbv iota.
    change (questionText (set_options _ pg)) with (questionText pg).
    by rewrite Hq.
Qed.

Lemma question_text_follows_the_list_witness :
  ∃ st', step (onClick 1 (select 0 Sample.state)) Timeout = Some st'
    ∧ textContent <$> questionText (page st') = Some "What's your ideal weekend?".
Proof.
  destruct (question_text_follows_the_list (onClick 1 (select 0 Sample.state)) 2)
    as (_ & (st' & Hs & Hupd & _) & _).
  - reflexivity.
  - lia.
  - discriminate.
  - exists st'. split; [exact Hs|].
    destruct Hupd as (q & Hq & ->); [lia|].
    injection Hq as <-. reflexivity.
Defined.

(** *** Missing presentation targets *)

Ltac by_state st :=
  destruct st as [c k [card opts [fill|] [text|] [[[p|]]|]]];
  unfold onPage, onTimeout; cbn [page currentQuestion pendingTimeouts];
  (destruct (S c <=? totalQuestions);
   [ unfold simulateNextQuestion, updateProgress; simpl;
     try destruct (c <=? 4); reflexivity
   | reflexivity ]).

Lemma onTimeout_withoutProgressFill st :
  onTimeout (onPage withoutProgressFill st) = onPage withoutProgressFill (onTimeout st).
Proof. by_state st. Qed.

Lemma onTimeout_withoutProgressText st :
  onTimeout (onPage withoutProgressText st) = onPage withoutProgressText (onTimeout st).
Proof. by_state st. Qed.

Lemma onTimeout_withoutQuizQuestion st :
  onTimeout (onPage withoutQuizQuestion st) = onPage withoutQuizQuestion (onTimeout st).
Proof. by_state st. Qed.

Lemma onTimeout_withoutQuestionText st :
  onPage withoutQuizQuestion (onTimeout (onPage withoutQuestionText st))
  = onPage withoutQuizQuestion (onTimeout st).
Proof. by_state st. Qed.

(** A step on a page changed by [f], where [f] leaves the options alone and
    commutes with the timer callback, is the step on the page as it was,
    changed by [f] afterwards. *)
Lemma step_onPage (f : Page → Page) st ev :
  (∀ pg, options (f pg) = options pg) →
  (∀ pg v, f (set_quizCard v pg) = set_quizCard v (f pg)) →
  (∀ pg, quizCard (f pg) = quizCard pg) →
  (∀ pg v, f (set_options v pg) = set_options v (f pg)) →
  (∀ st, onTimeout (onPage f st) = onPage f (onTimeout st)) →
  step (onPage f st) ev = onPage f <$> step st ev.
Proof.
  intros Hopts Hcard Hcard' Hset Htick. destruct ev; simpl.
  - unfold onMouseEnter, onPage. simpl. by rewrite Hcard, Hcard'.
  - unfold onMouseLeave, onPage. simpl. by rewrite Hcard, Hcard'.
  - rewrite Hopts. case_decide; [|done]. simpl.
    unfold onClick, onPage. simpl. by rewrite Hset, Hopts.
  - destruct (pendingTimeouts st); [done|]. simpl. by rewrite Htick.
Qed.

(** C10: each presentation target is guarded on its own.  Whatever targets
    the page lacks, a click on an existing option marks it, and its timer
    raises the counter by one and writes every target the page has: on the
    way to a next question the width 10*(n+1) percent, the text
    "Question n+1 of 10", the question text (for questions up to the
    fifth) and the reset of the options; on completion the completion
    display.  A target the page lacks stays absent and holds nothing back:
    on a page without the progress bar, without the progress text or
    without the question element, every event does to the rest of the state
    exactly what it does on the page that has it; without the question's
    paragraph the same holds for everything outside the question element.
    Only a missing quiz card keeps the preview from being set up. *)
Theorem targets_guarded_independently st ev :
  step (onPage withoutProgressFill st) ev = onPage withoutProgressFill <$> step st ev
  ∧ step (onPage withoutProgressText st) ev = onPage withoutProgressText <$> step st ev
  ∧ step (onPage withoutQuizQuestion st) ev = onPage withoutQuizQuestion <$> step st ev
  ∧ onPage withoutQuizQuestion <$> step (onPage withoutQuestionText st) ev
    = onPage withoutQuizQuestion <$> step st ev
  ∧ (∀ index, index < length (options (page st)) →
       ∃ st1 st2, step st (Click index) = Some st1
         ∧ isSelected <$> options (page st1) !! index = Some true
         ∧ step st1 Timeout = Some st2
         ∧ currentQuestion st2 = S (currentQuestion st))
  ∧ (pendingTimeouts st ≠ 0 →
       ∃ st', step st Timeout = Some st'
         ∧ currentQuestion st' = S (currentQuestion st)
         ∧ (S (currentQuestion st) ≤ totalQuestions →
              progressFill (page st')
              = (λ _, JsNumber.digits (10 * Z.of_nat (S (currentQuestion st))) +:+ "%")
                  <$> progressFill (page st)
              ∧ progressText (page st')
                = (λ _, "Question " +:+ JsNumber.digits (Z.of_nat (S (currentQuestion st)))
                        +:+ " of 10")
                    <$> progressText (page st)
              ∧ questionText (page st')
                = (if S (currentQuestion st) <=? length questions
                   then (λ p, {| style := style p;
                                 textContent := questionAt (S (currentQuestion st)) |})
                          <$> questionText (page st)
                   else questionText (page st))
              ∧ options (page st') = resetOption <$> options (page st))
         ∧ (totalQuestions < S (currentQuestion st) →
              progressFill (page st') = (λ _, "100%") <$> progressFill (page st)
              ∧ progressText (page st') = (λ _, "Quiz Complete!") <$> progressText (page st)
              ∧ quizQuestion (page st')
                = (λ _, {| paragraph := Some completeMessage |}) <$> quizQuestion (page st)
              ∧ options (page st') = options (page st)))
  ∧ (∀ pg, initQuizPreview pg = None ↔ quizCard pg = None).
Proof.
  split; [|split; [|split; [|split; [|split; [|split]]]]].
  - apply step_onPage; try done. apply onTimeout_withoutProgressFill.
  - apply step_onPage; try done. apply onTimeout_withoutProgressText.
  - apply step_onPage; try done. apply onTimeout_withoutQuizQuestion.
  - destruct ev; simpl; try done.
    + case_decide; done.
    + destruct (pendingTimeouts st); [done|]. simpl.
      by rewrite onTimeout_withoutQuestionText.
  - intros index Hi. exists (onClick index st), (onTimeout (onClick index st)).
    split; [by apply step_Click|]. split; [|done].
    destruct (lookup_lt_is_Some_2 (options (page (onClick index st))) index)
      as [opt Hopt]; [by rewrite onClick_length|].
    rewrite Hopt. simpl. f_equal. by apply (onClick_marks index st index opt).
  - intros Hp. exists (onTimeout st). split; [by apply step_Timeout|].
    split; [done|]. split.
    + intros Hle.
      rewrite onTimeout_progressFill, onTimeout_progressText.
      unfold shownWidth, shownText, onTimeout. cbn [page].
      replace (S (currentQuestion st) <=? totalQuestions) with true
        by (symmetry; by apply Nat.leb_le).
      rewrite progress_width by (unfold totalQuestions in *; lia).
      rewrite !counter_text by (unfold totalQuestions in *; lia).
      rewrite simulateNextQuestion_text, questionText_updateProgress.
      rewrite simulateNextQuestion_options, (proj1 (proj2 (updateProgress_rest _ _))).
      done.
    + intros Hgt. unfold onTimeout. cbn [page].
      replace (S (currentQuestion st) <=? totalQuestions) with false
        by (symmetry; by apply Nat.leb_gt).
      pose proof (showQuizComplete_display (page st)) as Hd.
      unfold display in Hd. injection Hd as -> -> ->.
      by rewrite (proj2 (showQuizComplete_rest _)).
  - intros pg. unfold initQuizPreview. by destruct (quizCard pg).
Qed.

Lemma targets_guarded_independently_witness :
  ∃ st', step (onClick 2 (onPage withoutProgressFill Sample.state)) Timeout = Some st'
    ∧ progressFill (page st') = None
    ∧ progressText (page st') = Some "Question 2 of 10"
    ∧ textContent <$> questionText (page st') = Some "How do you handle stress?".
Proof.
  destruct (targets_guarded_independently
              (onClick 2 (onPage withoutProgressFill Sample.state)) Timeout)
    as (_ & _ & _ & _ & _ & Htick & _).
  destruct Htick as (st' & Hs & _ & Hnext & _); [discriminate|].
  exists st'. split; [exact Hs|].
  destruct Hnext as (Hf & Ht & Hq & _); [vm_compute; lia|].
  rewrite Hf, Ht, Hq. repeat split.
Defined.

End QuizPreviewFacts.

(** ** Smooth scrolling for anchor links *)

Section AnchorScrollFacts.

Import AnchorScroll.

Implicit Types (doc : Document) (name href : string).

Lemma querySelector_id doc name :
  isIdent name = true →
  querySelector doc (String "#" name)
  = Normal (fst <$> list_find (λ id, idMatches (quirksMode doc) id name = true)
                      (elementIds doc)).
Proof.
  intros H. unfold querySelector.
  change (nat_of_ascii "#" =? 35) with true. cbv iota.
  destruct name as [|a name]; [done|].
  change (String.eqb (String a name) EmptyString) with false. cbv iota.
  by rewrite H.
Qed.

(** A click on a link whose fragment is a plain identifier: the default
    jump is prevented, the listener ends normally, and the first element
    whose id matches, if there is one, is scrolled into view smoothly with
    its top at the top of the viewport; without one nothing is scrolled. *)
Lemma click_on_fragment doc name :
  isIdent name = true →
  onClick doc (String "#" name)
  = {| defaultPrevented := true;
       scrolledIntoView :=
         match list_find (λ id, idMatches (quirksMode doc) id name = true)
                 (elementIds doc) with
         | Some (targetElement, _) =>
             [(targetElement, {| behavior := "smooth"; block := "start" |})]
         | None => []
         end;
       completion := Normal () |}.
Proof.
  intros H. unfold onClick. rewrite querySelector_id by done.
  by destruct (list_find _ _) as [[i id]|].
Qed.

(** C6, at the link [<a href="#">]: the selector [a[href^="#"]] picks the
    link up, and its click listener, having prevented the default action,
    hands the bare "#" to [document.querySelector], which throws; the
    listener ends with that [SyntaxError] instead of ending silently. *)
Theorem click_on_bare_hash_throws doc :
  "#" ∈ initSmoothScrolling Sample.document
  ∧ onClick doc "#"
    = {| defaultPrevented := true; scrolledIntoView := []; completion := Throw SyntaxError |}.
Proof.
  split; [|reflexivity].
  unfold initSmoothScrolling. apply list_elem_of_filter. split; [reflexivity|].
  simpl. left.
Qed.

End AnchorScrollFacts.

(** ** Parallax background *)

Section ParallaxFacts.

Local Set Warnings "-inexact-float".

(** C9: on a scroll event at offset [s], the orb at 0-based [index] gets
    the transform whose vertical translation is [s] times -0.5 times the
    speed factor (index + 1) * 0.1, in pixels, and whose rotation is [s]
    times 0.1, in degrees, the products being those of double arithmetic as
    the script computes them. *)
Theorem parallax_transform (s : float) (orbs : list string) (index : nat) :
  index < length orbs →
  Parallax.onScroll s orbs !! index
  = Some ("translateY("
          +:+ JsNumber.to_string (s * -0.5 * ((JsNumber.of_nat index + 1) * 0.1))%float
          +:+ "px) rotate(" +:+ JsNumber.to_string (s * 0.1)%float +:+ "deg)").
Proof.
  intros H. unfold Parallax.onScroll. rewrite list_lookup_imap.
  destruct (lookup_lt_is_Some_2 orbs index H) as [orb ->]. reflexivity.
Qed.

Lemma parallax_transform_witness :
  Parallax.onScroll 100 [EmptyString; EmptyString; EmptyString] !! 1 = Some "translateY(-10px) rotate(10deg)".
Proof.
  rewrite (parallax_transform 100 [EmptyString; EmptyString; EmptyString] 1) by (simpl; lia).
  vm_compute. reflexivity.
Defined.

(** The listener recomputes every transform from the offset alone; what an
    earlier scroll event left in place plays no part. *)
Lemma onScroll_stateless (s s' : float) (orbs : list string) :
  Parallax.onScroll s (Parallax.onScroll s' orbs) = Parallax.onScroll s orbs.
Proof.
  apply list_eq. intros i. unfold Parallax.onScroll.
  rewrite !list_lookup_imap. by destruct (orbs !! i).
Qed.

(** The factors are doubles: at offset 100 the third orb is moved by a
    little more than 15 pixels. *)
Example parallax_at_100 :
  Parallax.onScroll 100 [EmptyString; EmptyString; EmptyString]
  = [ "translateY(-5px) rotate(10deg)";
      "translateY(-10px) rotate(10deg)";
      "translateY(-15.000000000000002px) rotate(10deg)" ].
Proof. vm_compute. reflexivity. Qed.

(** The width formula is exact for every question of the preview; one past
    the last it would not be. *)
Example progress_width_past_the_end :
  JsNumber.to_string (JsNumber.of_nat 11 / JsNumber.of_nat QuizPreview.totalQuestions * 100)%float
  = "110.00000000000001".
Proof. vm_compute. reflexivity. Qed.

Example number_rendering :
  JsNumber.to_string (0.1 * 3)%float = "0.30000000000000004"
  ∧ JsNumber.to_string 1e21%float = "1e+21"
  ∧ JsNumber.to_string 123456789012345680000%float = "123456789012345680000"
  ∧ JsNumber.to_string 0.000001%float = "0.000001"
  ∧ JsNumber.to_string 1e-7%float = "1e-7"
  ∧ JsNumber.to_string (-0)%float = "0"
  ∧ JsNumber.to_string 4.35%float = "4.35".
Proof. repeat split; vm_compute; reflexivity. Qed.

End ParallaxFacts.

(** ** Scroll reveal: when and what *)

Section ScrollRevealMore.

Import ScrollReveal.

Implicit Types (els : Elements) (entry : Entry) (i : nat).

Lemma contains_add_ne (c d : string) (l : ClassList.t) :
  c ≠ d → ClassList.contains c (ClassList.add d l) = ClassList.contains c l.
Proof.
  intros Hne. unfold ClassList.add. destruct (ClassList.contains d l); [done|].
  unfold ClassList.contains. apply bool_decide_ext.
  rewrite elem_of_app, list_elem_of_singleton. tauto.
Qed.

Lemma contains_remove_ne (c d : string) (l : ClassList.t) :
  c ≠ d → ClassList.contains c (ClassList.remove d l) = ClassList.contains c l.
Proof.
  intros Hne. unfold ClassList.contains, ClassList.remove. apply bool_decide_ext.
  rewrite list_elem_of_filter. tauto.
Qed.

Lemma onEntry_length els entry : length (onEntry els entry) = length els.
Proof. unfold onEntry. destruct (isIntersecting entry); [apply length_alter | done]. Qed.

Lemma callback_length entries els : length (callback entries els) = length els.
Proof.
  unfold callback. revert els. induction entries as [|entry entries IH]; intros els; [done|].
  simpl. by rewrite IH, onEntry_length.
Qed.

Lemma run_reveal_length batches els : length (run batches els) = length els.
Proof.
  unfold run. revert els. induction batches as [|entries batches IH]; intros els; [done|].
  simpl. by rewrite IH, callback_length.
Qed.

Lemma revealed_onEntry_iff els entry i :
  revealed i (onEntry els entry) = true
  ↔ revealed i els = true
    ∨ (i < length els ∧ isIntersecting entry = true ∧ target entry = i).
Proof.
  unfold revealed, onEntry. destruct (isIntersecting entry).
  2: { split; [by left | intros [?|(_ & ? & _)]; done]. }
  rewrite list_lookup_alter. case_decide as Hi; [subst i|].
  2: { split; [by left | intros [?|(_ & _ & ?)]; done]. }
  destruct (els !! target entry) as [cl|] eqn:E; simpl.
  - rewrite contains_add. apply lookup_lt_Some in E.
    split; [intros _; by right | done].
  - apply lookup_ge_None in E. split; [done|]. intros [?|[? _]]; [done|lia].
Qed.

Lemma revealed_callback_iff entries els i :
  revealed i (callback entries els) = true
  ↔ revealed i els = true
    ∨ (i < length els
       ∧ ∃ entry, entry ∈ entries ∧ isIntersecting entry = true ∧ target entry = i).
Proof.
  unfold callback. revert els.
  induction entries as [|entry entries IH]; intros els; simpl.
  - split; [by left|]. intros [?|(_ & ? & []%elem_of_nil & _)]; done.
  - rewrite IH, revealed_onEntry_iff, onEntry_length. split.
    + intros [[?|(? & ? & ?)]|(? & e & ? & ? & ?)]; [by left| |].
      * right. split; [done|]. exists entry. split; [left|done].
      * right. split; [done|]. exists e. split; [by right|done].
    + intros [?|(? & e & [->|?]%elem_of_cons & ? & ?)]; [by left; left| |].
      * left. by right.
      * right. split; [done|]. by exists e.
Qed.

(** X1: an observed element carries the reveal mark after the observer's
    callbacks exactly when it carried it before or some entry of some batch
    reported it as intersecting. *)
Theorem revealed_iff_intersected_once batches els i :
  i < length els →
  revealed i (run batches els) = true
  ↔ revealed i els = true
    ∨ ∃ entries entry, entries ∈ batches ∧ entry ∈ entries
        ∧ isIntersecting entry = true ∧ target entry = i.
Proof.
  unfold run. revert els.
  induction batches as [|entries batches IH]; intros els Hi; simpl.
  - split; [by left|]. intros [?|(? & ? & []%elem_of_nil & _)]; done.
  - rewrite IH by (by rewrite callback_length). rewrite revealed_callback_iff. split.
    + intros [[?|(_ & e & ? & ? & ?)]|(es & e & ? & ? & ? & ?)]; [by left| |].
      * right. exists entries, e. split; [left|done].
      * right. exists es, e. split; [by right|done].
    + intros [?|(es & e & [->|?]%elem_of_cons & ? & ? & ?)]; [by left; left| |].
      * left. right. split; [done|]. by exists e.
      * right. by exists es, e.
Qed.

Lemma revealed_iff_intersected_once_witness :
  revealed 2 (run [[{| target := 0; isIntersecting := true |}];
                   [{| target := 2; isIntersecting := false |}]] Sample.cards) = true
  ↔ revealed 2 Sample.cards = true
    ∨ ∃ entries entry,
        entries ∈ [[{| target := 0; isIntersecting := true |}];
                   [{| target := 2; isIntersecting := false |}]]
        ∧ entry ∈ entries ∧ isIntersecting entry = true ∧ target entry = 2.
Proof. apply (revealed_iff_intersected_once _ Sample.cards 2). repeat constructor. Defined.

Lemma onEntry_lookup els entry i cl :
  els !! i = Some cl →
  onEntry els entry !! i = Some cl
  ∨ onEntry els entry !! i = Some (ClassList.add "animate-in" cl).
Proof.
  intros E. unfold onEntry. destruct (isIntersecting entry); [|by left].
  rewrite list_lookup_alter. case_decide as Hi; [subst i; rewrite E; by right | by left].
Qed.

Lemma callback_lookup entries els i cl :
  els !! i = Some cl →
  callback entries els !! i = Some cl
  ∨ callback entries els !! i = Some (ClassList.add "animate-in" cl).
Proof.
  unfold callback. revert els cl.
  induction entries as [|entry entries IH]; intros els cl E; simpl; [by left|].
  destruct (onEntry_lookup els entry i cl E) as [E'|E'].
  - by apply IH.
  - destruct (IH _ _ E') as [->| ->]; [by right|]. right. by rewrite add_idempotent.
Qed.

(** X2: the observer's callbacks add and remove no element, and leave each
    element's class list either as it was or with the one token
    "animate-in" added to it; no other class is ever touched. *)
Theorem reveal_touches_only_its_mark batches els :
  length (run batches els) = length els
  ∧ ∀ i cl, els !! i = Some cl →
      run batches els !! i = Some cl
      ∨ run batches els !! i = Some (ClassList.add "animate-in" cl).
Proof.
  split; [apply run_reveal_length|].
  unfold run. revert els.
  induction batches as [|entries batches IH]; intros els i cl E; simpl; [by left|].
  destruct (callback_lookup entries els i cl E) as [E'|E'].
  - by apply IH.
  - destruct (IH _ _ _ E') as [->| ->]; [by right|]. right. by rewrite add_idempotent.
Qed.

Lemma reveal_touches_only_its_mark_witness :
  run [[{| target := 0; isIntersecting := true |}]] Sample.cards !! 0
  = Some ["feature-card"; "animate-in"]
  ∧ run [[{| target := 0; isIntersecting := true |}]] Sample.cards !! 2 = Some ["step"].
Proof.
  destruct (reveal_touches_only_its_mark
              [[{| target := 0; isIntersecting := true |}]] Sample.cards) as [_ H].
  split.
  - destruct (H 0 ["feature-card"] eq_refl) as [E|E];
      [vm_compute in E; discriminate E | exact E].
  - destruct (H 2 ["step"] eq_refl) as [E|E];
      [exact E | vm_compute in E; discriminate E].
Defined.

End ScrollRevealMore.

(** ** Quiz preview: arbitrary interleavings *)

Section QuizTraceFacts.

Import QuizPreview QuizTrace.

Implicit Types (pg : Page) (st : State) (ev : Event) (evs : list Event) (index n : nat).

Lemma clicks_cons ev evs : clicks (ev :: evs) = (if isClick ev then 1 else 0) + clicks evs.
Proof. unfold clicks. rewrite filter_cons. by destruct ev. Qed.

Lemma withoutHover_cons ev evs :
  withoutHover (ev :: evs) = if isHover ev then withoutHover evs else ev :: withoutHover evs.
Proof. unfold withoutHover. rewrite filter_cons. by destruct ev. Qed.

Lemma step_pending st ev st' :
  step st ev = Some st' →
  pendingTimeouts st' + (if isTimeout ev then 1 else 0)
  = pendingTimeouts st + (if isClick ev then 1 else 0).
Proof.
  destruct ev; simpl.
  - intros [= <-]. simpl. lia.
  - intros [= <-]. simpl. lia.
  - case_decide; [|done]. intros [= <-]. simpl. lia.
  - destruct (pendingTimeouts st) eqn:E; [done|]. intros [= <-]. simpl. lia.
Qed.

Lemma run_pending evs st st' :
  run evs st = Some st' →
  pendingTimeouts st' + timeouts evs = pendingTimeouts st + clicks evs.
Proof.
  revert st. induction evs as [|ev evs IH]; intros st; simpl.
  - intros [= <-]. unfold timeouts, clicks. simpl. lia.
  - destruct (step st ev) as [st1|] eqn:E; simpl; [|done]. intros H.
    pose proof (IH _ H). pose proof (step_pending _ _ _ E).
    rewrite timeouts_cons, clicks_cons. lia.
Qed.

(** X3: every advance of the counter is paid for by a click.  At any point
    of any run from set-up, the counter plus the timers still pending is one
    more than the number of option clicks so far; so no more timers have
    come due than options were clicked, and the counter is at most one more
    than the number of clicks. *)
Theorem counter_advances_once_per_click pg st0 evs st :
  initQuizPreview pg = Some st0 →
  run evs st0 = Some st →
  currentQuestion st + pendingTimeouts st = 1 + clicks evs
  ∧ timeouts evs ≤ clicks evs
  ∧ currentQuestion st ≤ 1 + clicks evs.
Proof.
  intros [-> _]%initQuizPreview_Some Hr.
  pose proof (run_pending _ _ _ Hr) as Hp. pose proof (run_counter _ _ _ Hr) as Hc.
  simpl in Hp, Hc. lia.
Qed.

Lemma counter_advances_once_per_click_witness :
  ∃ st, run [Click 0; Click 1; Timeout; MouseEnter; Click 0] Sample.state = Some st
    ∧ currentQuestion st + pendingTimeouts st = 4.
Proof.
  eexists. split; [reflexivity|].
  apply (counter_advances_once_per_click Sample.page Sample.state
           [Click 0; Click 1; Timeout; MouseEnter; Click 0] _ eq_refl eq_refl).
Defined.

(** *** Hovering the card *)

Lemma onTimeout_asideFromCard st :
  onTimeout (asideFromCard st) = asideFromCard (onTimeout st).
Proof.
  destruct st as [c k [card opts [fill|] [text|] [[[p|]]|]]];
  unfold asideFromCard, onPage, onTimeout; cbn [page currentQuestion pendingTimeouts];
  (destruct (S c <=? totalQuestions);
   [ unfold simulateNextQuestion, updateProgress; simpl;
     try destruct (c <=? 4); reflexivity
   | reflexivity ]).
Qed.

Lemma step_asideFromCard st ev :
  isHover ev = false → step (asideFromCard st) ev = asideFromCard <$> step st ev.
Proof.
  destruct ev; simpl; try done; intros _.
  - case_decide; done.
  - destruct (pendingTimeouts st); [done|]. simpl. by rewrite onTimeout_asideFromCard.
Qed.

Lemma step_hover_aside st ev st' :
  isHover ev = true → step st ev = Some st' → asideFromCard st' = asideFromCard st.
Proof.
  destruct ev; simpl; try done; intros _ [= <-];
    unfold asideFromCard, onPage, onMouseEnter, onMouseLeave; reflexivity.
Qed.

Lemma run_withoutHover evs st st2 st' :
  asideFromCard st2 = asideFromCard st →
  run evs st = Some st' →
  ∃ st2', run (withoutHover evs) st2 = Some st2' ∧ asideFromCard st2' = asideFromCard st'.
Proof.
  revert st st2. induction evs as [|ev evs IH]; intros st st2 Heq; simpl.
  - intros [= <-]. by exists st2.
  - destruct (step st ev) as [st1|] eqn:E; simpl; [|done]. intros Hr.
    rewrite withoutHover_cons. destruct (isHover ev) eqn:Hh.
    + apply (IH st1 st2); [|done]. rewrite Heq. symmetry. by eapply step_hover_aside.
    + pose proof (step_asideFromCard st ev Hh) as H1.
      pose proof (step_asideFromCard st2 ev Hh) as H2.
      rewrite Heq, H1, E in H2. simpl.
      destruct (step st2 ev) as [st2'|]; [|done].
      change (Some (asideFromCard st1) = Some (asideFromCard st2')) in H2.
      apply (f_equal (default st1)) in H2. cbv [default] in H2.
      exact (IH st1 st2' (eq_sym H2) Hr).
Qed.

(** X4: hovering the card never interferes with the quiz.  Leaving every
    pointer-enter and pointer-leave out of a run gives a run that is also
    possible and ends in the same state, the card's own inline transform
    aside: same counter, same pending timers, same options, same progress
    and question display. *)
Theorem hover_does_not_interfere evs st st' :
  run evs st = Some st' →
  ∃ st'', run (withoutHover evs) st = Some st''
    ∧ asideFromCard st'' = asideFromCard st'.
Proof. by apply run_withoutHover. Qed.

Lemma hover_does_not_interfere_witness :
  ∃ st'', run [Click 1; Timeout; Click 3] Sample.state = Some st''
    ∧ currentQuestion st'' = 2.
Proof.
  destruct (hover_does_not_interfere
              [MouseEnter; Click 1; MouseLeave; Timeout; MouseEnter; Click 3]
              Sample.state _ eq_refl) as (st'' & Hr & Heq).
  exists st''. split; [exact Hr|].
  exact (f_equal currentQuestion Heq).
Defined.

Lemma step_card st ev st' :
  step st ev = Some st' →
  quizCard (page st')
  = match ev with
    | MouseEnter => (λ _, "rotateY(0deg) rotateX(0deg) scale(1.05)") <$> quizCard (page st)
    | MouseLeave => (λ _, "rotateY(-5deg) rotateX(5deg) scale(1)") <$> quizCard (page st)
    | _ => quizCard (page st)
    end.
Proof.
  destruct ev; simpl.
  - by intros [= <-].
  - by intros [= <-].
  - case_decide; [|done]. by intros [= <-].
  - destruct (pendingTimeouts st); [done|]. intros [= <-].
    unfold onTimeout. cbn [page]. destruct (S (currentQuestion st) <=? totalQuestions).
    + by rewrite (proj1 (simulateNextQuestion_rest _ _)), (proj1 (updateProgress_rest _ _)).
    + by rewrite (proj1 (showQuizComplete_rest _)).
Qed.

Lemma lastHover_snoc evs ev :
  lastHover (evs ++ [ev]) = if isHover ev then Some ev else lastHover evs.
Proof.
  unfold lastHover. rewrite filter_app.
  assert (filter (λ ev, isHover ev = true) [ev] = if isHover ev then [ev] else []) as ->
    by (by destruct ev).
  destruct (isHover ev); [apply last_snoc | by rewrite app_nil_r].
Qed.

(** X5: the card's inline transform is what the last pointer event on it
    asked for, whatever clicks and timers came in between: the enlarged
    transform after the pointer entered, the tilted one after it left, and
    the page's own when the pointer never came near. *)
Theorem card_follows_last_hover evs st st' :
  run evs st = Some st' →
  quizCard (page st')
  = match lastHover evs with
    | Some MouseEnter =>
        (λ _, "rotateY(0deg) rotateX(0deg) scale(1.05)") <$> quizCard (page st)
    | Some _ => (λ _, "rotateY(-5deg) rotateX(5deg) scale(1)") <$> quizCard (page st)
    | None => quizCard (page st)
    end.
Proof.
  revert st'. induction evs as [|ev evs IH] using rev_ind; intros st'.
  - simpl. by intros [= <-].
  - intros (st1 & Hr & Hs)%run_snoc. rewrite lastHover_snoc, (step_card _ _ _ Hs).
    specialize (IH _ Hr). destruct ev; simpl; try done.
    + rewrite IH. by destruct (lastHover evs) as [[]|], (quizCard (page st)).
    + rewrite IH. by destruct (lastHover evs) as [[]|], (quizCard (page st)).
Qed.

Lemma card_follows_last_hover_witness :
  ∃ st', run [MouseEnter; Click 0; MouseLeave; Timeout] Sample.state = Some st'
    ∧ quizCard (page st') = Some "rotateY(-5deg) rotateX(5deg) scale(1)".
Proof.
  eexists. split; [reflexivity|].
  apply (card_follows_last_hover [MouseEnter; Click 0; MouseLeave; Timeout]
           Sample.state _ eq_refl).
Defined.

End QuizTraceFacts.

(** ** Quiz preview: what the page shows along a run *)

Section QuizDisplayFacts.

Import QuizPreview QuizTrace.

Implicit Types (pg : Page) (st : State) (ev : Event) (evs : list Event) (index n : nat).

Lemma step_display_other st ev st' :
  step st ev = Some st' →
  isTimeout ev = false →
  display (page st') = display (page st) ∧ currentQuestion st' = currentQuestion st.
Proof.
  destruct ev; simpl; try done.
  - by intros [= <-].
  - by intros [= <-].
  - case_decide; [|done]. by intros [= <-].
Qed.

Lemma run_display_other evs st st' :
  run evs st = Some st' →
  timeouts evs = 0 →
  display (page st') = display (page st) ∧ currentQuestion st' = currentQuestion st.
Proof.
  revert st. induction evs as [|ev evs IH]; intros st; simpl; [by intros [= <-]|].
  destruct (step st ev) as [st1|] eqn:E; simpl; [|done]. intros Hr.
  rewrite timeouts_cons. destruct (isTimeout ev) eqn:Ht; [done|]. intros H0.
  destruct (IH _ Hr H0) as [-> ->]. by eapply step_display_other.
Qed.

(** X6: whatever the interleaving of clicks, hovers and timers, once a
    timer has come due the progress bar and the progress text show the
    counter as it stands: the width and the text that the timer callback
    writes for that counter value, on every target the page has.  Clicks
    in quick succession skip question numbers but never leave the progress
    display behind the counter. *)
Theorem progress_shows_counter evs st st' :
  run evs st = Some st' →
  1 ≤ timeouts evs →
  currentQuestion st' = currentQuestion st + timeouts evs
  ∧ progressFill (page st')
    = (λ _, shownWidth (currentQuestion st')) <$> progressFill (page st)
  ∧ progressText (page st')
    = (λ _, shownText (currentQuestion st')) <$> progressText (page st).
Proof.
  intros Hr Ht. split; [by apply run_counter|]. revert st Hr Ht.
  induction evs as [|ev evs IH]; intros st; simpl; [unfold timeouts; simpl; lia|].
  destruct (step st ev) as [st1|] eqn:E; simpl; [|done]. intros Hr.
  rewrite timeouts_cons. intros Ht.
  destruct (timeouts evs) as [|k] eqn:Hk.
  - destruct (run_display_other _ _ _ Hr Hk) as [Hd ->].
    unfold display in Hd. injection Hd as -> -> _.
    destruct ev; simpl in Ht; try lia. simpl in E.
    destruct (pendingTimeouts st); [done|]. injection E as <-.
    by rewrite onTimeout_progressFill, onTimeout_progressText.
  - destruct (IH st1 Hr) as [-> ->]; [lia|].
    pose proof (step_shown _ _ _ (shownWidth (currentQuestion st'))
                  (shownText (currentQuestion st')) {| paragraph := None |} E) as Hs.
    unfold shown in Hs. by injection Hs as -> -> _.
Qed.

Lemma progress_shows_counter_witness :
  ∃ st', run [Click 0; Click 1; Click 0; Timeout; Timeout; Timeout] Sample.state = Some st'
    ∧ progressText (page st') = Some "Question 4 of 10".
Proof.
  eexists. split; [reflexivity|].
  destruct (progress_shows_counter [Click 0; Click 1; Click 0; Timeout; Timeout; Timeout]
              Sample.state _ eq_refl) as (_ & _ & ->); [vm_compute; lia|].
  vm_compute. reflexivity.
Defined.

Lemma step_textFollowsList st ev st' :
  step st ev = Some st' → textFollowsList st → textFollowsList st'.
Proof.
  intros Hs Hi. destruct (isTimeout ev) eqn:Ht.
  - destruct ev; try done. simpl in Hs.
    destruct (pendingTimeouts st); [done|]. injection Hs as <-.
    intros p. unfold onTimeout. cbn [page currentQuestion].
    intros Hp [H2 H10].
    replace (S (currentQuestion st) <=? totalQuestions) with true in Hp
      by (symmetry; by apply Nat.leb_le).
    rewrite simulateNextQuestion_text, questionText_updateProgress in Hp.
    destruct (S (currentQuestion st) <=? length questions) eqn:Hle.
    + apply Nat.leb_le in Hle. rewrite Nat.min_l by done.
      destruct (questionText (page st)) as [p0|]; [|done]. by injection Hp as <-.
    + apply Nat.leb_gt in Hle. simpl in Hle. rewrite Nat.min_r by (simpl; lia).
      rewrite (Hi p Hp) by (unfold totalQuestions in *; lia).
      by rewrite Nat.min_r by (simpl; lia).
  - destruct (step_display_other _ _ _ Hs Ht) as [Hd Hc].
    unfold display in Hd. injection Hd as _ _ Hq.
    intros p. unfold questionText. rewrite Hq, Hc. apply Hi.
Qed.

Lemma run_textFollowsList evs st st' :
  run evs st = Some st' → textFollowsList st → textFollowsList st'.
Proof.
  revert st. induction evs as [|ev evs IH]; intros st; simpl; [by intros [= <-]|].
  destruct (step st ev) as [st1|] eqn:E; simpl; [|done].
  intros Hr Hi. apply (IH _ Hr). by eapply step_textFollowsList.
Qed.

(** X7: along every run from set-up, while the counter is between 2 and
    10 the question text (where the page has one) is the list's entry for
    the counter capped at five; from question 5 on it stays at
    "What energizes you most?" while the progress text counts on to
    "Question 10 of 10". *)
Theorem question_text_stops_at_the_fifth pg st0 evs st p :
  initQuizPreview pg = Some st0 →
  run evs st0 = Some st →
  questionText (page st) = Some p →
  2 ≤ currentQuestion st ≤ totalQuestions →
  textContent p = questionAt (Nat.min (currentQuestion st) 5)
  ∧ (5 ≤ currentQuestion st → textContent p = "What energizes you most?").
Proof.
  intros [-> _]%initQuizPreview_Some Hr Hp Hc.
  assert (textFollowsList st) as Hi.
  { apply (run_textFollowsList _ _ _ Hr). intros ? _ [? _]. simpl in *. lia. }
  specialize (Hi p Hp Hc). split; [exact Hi|].
  intros H5. rewrite Hi. by rewrite Nat.min_r by (simpl; lia).
Qed.

Lemma question_text_stops_at_the_fifth_witness :
  ∃ st p, run (selections [0; 1; 2; 3; 0; 1; 2]) Sample.state = Some st
    ∧ questionText (page st) = Some p
    ∧ progressText (page st) = Some "Question 8 of 10"
    ∧ textContent p = "What energizes you most?".
Proof.
  eexists _, _. split; [reflexivity|]. split; [reflexivity|]. split; [reflexivity|].
  apply (question_text_stops_at_the_fifth Sample.page Sample.state
           (selections [0; 1; 2; 3; 0; 1; 2]) _ _ eq_refl eq_refl eq_refl).
  - vm_compute. lia.
  - vm_compute. lia.
Defined.

End QuizDisplayFacts.

(** ** Quiz preview: the options along a run *)

Section QuizOptionFacts.

Import QuizPreview QuizTrace.

Implicit Types (pg : Page) (st : State) (ev : Event) (evs : list Event) (index n : nat).

(** X8: the selected mark is cleared when the preview moves on to a next
    question but not when it completes.  After one to nine selections no
    option is marked and every option's inline transform is "translateX(0)";
    after the tenth, and after any later one, the option picked last is
    still marked, and is the only one. *)
Theorem last_pick_stays_marked_on_completion pg st0 picks index st :
  initQuizPreview pg = Some st0 →
  last picks = Some index →
  run (selections picks) st0 = Some st →
  (length picks < totalQuestions →
     selectedCount (page st) = 0
     ∧ ∀ j opt, options (page st) !! j = Some opt → transform opt = "translateX(0)")
  ∧ (totalQuestions ≤ length picks →
       selectedCount (page st) = 1
       ∧ isSelected <$> options (page st) !! index = Some true).
Proof.
  intros [-> _]%initQuizPreview_Some [picks' ->]%last_Some Hr.
  rewrite selections_app in Hr.
  change (selections [index]) with ([Click index] ++ [Timeout]) in Hr.
  rewrite app_assoc in Hr. apply run_snoc in Hr as (st2 & Hr & Hs).
  apply run_snoc in Hr as (st1 & Hr & Hc).
  pose proof (run_counter _ _ _ Hr) as Hn. rewrite timeouts_selections in Hn.
  simpl in Hn. cbn [step] in Hc. case_decide as Hi; [|done]. injection Hc as <-.
  rewrite step_Timeout in Hs by done. injection Hs as <-.
  rewrite length_app. change (length [index]) with 1. unfold onTimeout. cbn [page].
  change (currentQuestion (onClick index st1)) with (currentQuestion st1).
  split; intros Hlen.
  - replace (S (currentQuestion st1) <=? totalQuestions) with true
      by (symmetry; apply Nat.leb_le; lia).
    split; [apply simulateNextQuestion_selectedCount|].
    intros j opt. rewrite simulateNextQuestion_options.
    intros (o & -> & _)%list_lookup_fmap_Some. reflexivity.
  - replace (S (currentQuestion st1) <=? totalQuestions) with false
      by (symmetry; apply Nat.leb_gt; lia).
    unfold selectedCount. rewrite (proj2 (showQuizComplete_rest _)).
    split; [by apply (onClick_selectedCount index st1)|].
    destruct (lookup_lt_is_Some_2 (options (page (onClick index st1))) index)
      as [opt Hopt]; [by rewrite onClick_length|].
    rewrite Hopt. simpl. f_equal.
    by apply (onClick_marks index st1 index opt).
Qed.

Lemma last_pick_stays_marked_on_completion_witness :
  ∃ st, run (selections [0; 1; 2; 3; 0; 1; 2; 3; 0; 2]) Sample.state = Some st
    ∧ selectedCount (page st) = 1
    ∧ isSelected <$> options (page st) !! 2 = Some true.
Proof.
  destruct (run (selections [0; 1; 2; 3; 0; 1; 2; 3; 0; 2]) Sample.state) as [st|] eqn:Hr;
    [|vm_compute in Hr; discriminate Hr].
  exists st. split; [reflexivity|].
  apply (last_pick_stays_marked_on_completion Sample.page Sample.state
           [0; 1; 2; 3; 0; 1; 2; 3; 0; 2] 2 st eq_refl eq_refl Hr).
  vm_compute. lia.
Defined.

Lemma sameButSelection_refl opt : sameButSelection opt opt.
Proof. split; [done | by left]. Qed.

Lemma sameButSelection_trans opt1 opt2 opt3 :
  sameButSelection opt1 opt2 → sameButSelection opt2 opt3 → sameButSelection opt1 opt3.
Proof.
  intros [Hc1 Ht1] [Hc2 Ht2]. split.
  - intros c Hc. by rewrite Hc2, Hc1.
  - destruct Ht2 as [->| ->]; [done | by right].
Qed.

Lemma step_sameButSelection st ev st' j opt :
  step st ev = Some st' →
  options (page st) !! j = Some opt →
  ∃ opt', options (page st') !! j = Some opt' ∧ sameButSelection opt opt'.
Proof.
  intros Hs Hj. destruct ev; simpl in Hs.
  - injection Hs as <-. exists opt. split; [done | apply sameButSelection_refl].
  - injection Hs as <-. exists opt. split; [done | apply sameButSelection_refl].
  - case_decide; [|done]. injection Hs as <-. cbn [page onClick set_options options].
    rewrite list_lookup_alter, !list_lookup_fmap. case_decide as Hi.
    + subst j. rewrite Hj. simpl. eexists. split; [done|]. split; [|by left].
      intros c Hc. simpl. by rewrite contains_add_ne, contains_remove_ne.
    + rewrite Hj. simpl. eexists. split; [done|]. split; [|by left].
      intros c Hc. simpl. by rewrite contains_remove_ne.
  - destruct (pendingTimeouts st); [done|]. injection Hs as <-.
    unfold onTimeout. cbn [page]. destruct (S (currentQuestion st) <=? totalQuestions).
    + rewrite simulateNextQuestion_options, (proj1 (proj2 (updateProgress_rest _ _))).
      rewrite list_lookup_fmap, Hj. simpl. eexists. split; [done|]. split; [|by right].
      intros c Hc. simpl. by rewrite contains_remove_ne.
    + rewrite (proj2 (showQuizComplete_rest _)).
      exists opt. split; [done | apply sameButSelection_refl].
Qed.

(** X9: the handlers touch nothing of an option but its "selected" token
    and its inline transform.  Along every run, every option is still there
    at its place, carries exactly the classes it had apart from "selected",
    and has the inline transform it had or "translateX(0)". *)
Theorem options_keep_their_classes evs st st' :
  run evs st = Some st' →
  length (options (page st')) = length (options (page st))
  ∧ ∀ j opt, options (page st) !! j = Some opt →
      ∃ opt', options (page st') !! j = Some opt' ∧ sameButSelection opt opt'.
Proof.
  intros Hr. split; [by eapply run_length|]. revert st Hr.
  induction evs as [|ev evs IH]; intros st; simpl.
  - intros [= <-] j opt Hj. exists opt. split; [done | apply sameButSelection_refl].
  - destruct (step st ev) as [st1|] eqn:E; simpl; [|done]. intros Hr j opt Hj.
    destruct (step_sameButSelection _ _ _ _ _ E Hj) as (opt1 & Hj1 & H1).
    destruct (IH _ Hr _ _ Hj1) as (opt' & Hj' & H').
    exists opt'. split; [done|]. by eapply sameButSelection_trans.
Qed.

Lemma options_keep_their_classes_witness :
  ∃ st', run [Click 1; Timeout; Click 3] Sample.state = Some st'
    ∧ length (options (page st')) = 4.
Proof.
  eexists. split; [reflexivity|].
  apply (options_keep_their_classes [Click 1; Timeout; Click 3] Sample.state _ eq_refl).
Defined.

End QuizOptionFacts.

(** ** The injected style sheet *)

Section InjectedStyleFacts.

Import InjectedStyle.

Implicit Types (el : Styled) (property : string).












Import QuizPreview QuizTrace.

(** X13: once the preview has moved on to a next question, the inline
    transform that [simulateNextQuestion] leaves on every option overrides
    the sheet for good: in every later state, every option's computed
    transform is "translateX(0)", selected or not, under the pointer or
    not.  The selected and hover shifts are seen on the first question
    only. *)
Theorem option_shift_is_lost_after_first_advance st st1 evs st2 j opt hovered :
  step st Timeout = Some st1 →
  currentQuestion st < totalQuestions →
  run evs st1 = Some st2 →
  options (page st2) !! j = Some opt →
  computed "transform" (ofOption opt hovered) = Some "translateX(0)".
Proof.
  intros Hs Hc Hr Hj.
  assert (QuizPreview.transform opt = "translateX(0)") as Ht.
  { destruct (options_keep_their_classes _ _ _ Hr) as [Hlen Hsame].
    destruct (lookup_lt_is_Some_2 (options (page st1)) j) as [opt1 Hj1].
    { rewrite <- Hlen. by eapply lookup_lt_Some. }
    destruct (Hsame _ _ Hj1) as (opt' & Hj' & _ & Ht). rewrite Hj in Hj'.
    injection Hj' as <-.
    assert (QuizPreview.transform opt1 = "translateX(0)") as Ht1.
    { simpl in Hs. destruct (pendingTimeouts st); [done|]. injection Hs as <-.
      revert Hj1. unfold onTimeout. cbn [page].
      replace (S (currentQuestion st) <=? totalQuestions) with true
        by (symmetry; apply Nat.leb_le; lia).
      rewrite simulateNextQuestion_options.
      by intros (o & -> & _)%list_lookup_fmap_Some. }
    destruct Ht as [-> | ->]; done. }
  unfold computed, ofOption. rewrite Ht. reflexivity.
Qed.

Lemma option_shift_is_lost_after_first_advance_witness :
  ∃ st2 opt, run [Click 2] (select 0 Sample.state) = Some st2
    ∧ options (page st2) !! 2 = Some opt
    ∧ computed "transform" (ofOption opt false) = Some "translateX(0)".
Proof.
  destruct (run [Click 2] (select 0 Sample.state)) as [st2|] eqn:Hr;
    [|vm_compute in Hr; discriminate Hr].
  destruct (options (page st2) !! 2) as [opt|] eqn:Hj.
  - exists st2, opt. split; [reflexivity|]. split; [exact Hj|].
    apply (option_shift_is_lost_after_first_advance
             (onClick 0 Sample.state) (select 0 Sample.state) [Click 2] st2 2 opt false
             eq_refl); [vm_compute; lia | exact Hr | exact Hj].
  - vm_compute in Hr. injection Hr as <-. vm_compute in Hj. discriminate Hj.
Defined.

End InjectedStyleFacts.

(** ** Anchor links: where a click scrolls to *)

Section AnchorScrollMore.

Import AnchorScroll.

Implicit Types (doc : Document) (name href : string).

(** X14: a click on a link whose fragment is a plain identifier scrolls to
    the first element, in tree order, whose id matches it, once, smoothly
    and with its top at the top of the viewport; if no element's id matches
    it scrolls nowhere.  Either way the listener ends normally with the
    default jump prevented.  An id matches when it is the same string; in a
    quirks-mode document the case of ASCII letters is not told apart. *)
Theorem click_scrolls_to_first_match doc name :
  isIdent name = true →
  defaultPrevented (onClick doc (String "#" name)) = true
  ∧ completion (onClick doc (String "#" name)) = Normal ()
  ∧ ((∃ id, id ∈ elementIds doc ∧ idMatches (quirksMode doc) id name = true) →
       ∃ i id, scrolledIntoView (onClick doc (String "#" name))
               = [(i, {| behavior := "smooth"; block := "start" |})]
          ∧ elementIds doc !! i = Some id
          ∧ idMatches (quirksMode doc) id name = true
          ∧ ∀ j id', j < i → elementIds doc !! j = Some id' →
              idMatches (quirksMode doc) id' name = false)
  ∧ ((∀ id, id ∈ elementIds doc → idMatches (quirksMode doc) id name = false) →
       scrolledIntoView (onClick doc (String "#" name)) = [])
  ∧ (quirksMode doc = false →
       ∀ id, idMatches (quirksMode doc) id name = true ↔ id = name).
Proof.
  intros H. rewrite (click_on_fragment doc name H).
  cbn [defaultPrevented completion scrolledIntoView].
  split; [done|]. split; [done|].
  assert (quirksMode doc = false →
          ∀ id, idMatches (quirksMode doc) id name = true ↔ id = name) as Hexact.
  { intros -> id. unfold idMatches. apply String.eqb_eq. }
  destruct (list_find (λ id, idMatches (quirksMode doc) id name = true) (elementIds doc))
    as [[i id]|] eqn:E.
  - apply list_find_Some in E as (Hi & Hm & Hfirst). split; [|split; [|exact Hexact]].
    + intros _. exists i, id. split; [done|]. split; [done|]. split; [done|].
      intros j id' Hj Hj'. specialize (Hfirst j id' Hj' Hj).
      by destruct (idMatches (quirksMode doc) id' name).
    + intros Hn. rewrite Hn in Hm; [done|]. by eapply list_elem_of_lookup_2.
  - apply list_find_None in E. split; [|split; [done | exact Hexact]].
    intros (id & Hin & Hm). exfalso.
    by apply (proj1 (Forall_forall _ _) E id).
Qed.

Lemma click_scrolls_to_first_match_witness :
  scrolledIntoView
    (onClick {| quirksMode := true; elementIds := ["top"; "Features"; "features"];
                anchors := ["#FEATURES"]; compound := λ _, Normal None |}
             "#FEATURES")
  = [(1, {| behavior := "smooth"; block := "start" |})].
Proof.
  destruct (click_scrolls_to_first_match
              {| quirksMode := true; elementIds := ["top"; "Features"; "features"];
                 anchors := ["#FEATURES"]; compound := λ _, Normal None |}
              "FEATURES" eq_refl)
    as (_ & _ & Hfound & _).
  destruct Hfound as (i & id & -> & Hi & Hm & Hfirst).
  - exists "features". split; [|reflexivity]. cbn [elementIds]. right. right. left.
  - do 2 f_equal. cbn [elementIds quirksMode] in Hi, Hm, Hfirst.
    destruct i as [|[|i]].
    + injection Hi as <-. vm_compute in Hm. discriminate Hm.
    + reflexivity.
    + specialize (Hfirst 1 "Features" ltac:(lia) eq_refl).
      vm_compute in Hfirst. discriminate Hfirst.
Defined.

(** X15: whatever the link's [href] and whatever the selector engine makes
    of it, the listener prevents the default action first, asks for at most
    one scroll, always a smooth one aligned to the top, and asks for none
    when the lookup throws. *)
Theorem click_always_prevents_default doc href :
  defaultPrevented (onClick doc href) = true
  ∧ length (scrolledIntoView (onClick doc href)) ≤ 1
  ∧ (∀ request, request ∈ scrolledIntoView (onClick doc href) →
       request.2 = {| behavior := "smooth"; block := "start" |})
  ∧ (∀ e, completion (onClick doc href) = Throw e →
       scrolledIntoView (onClick doc href) = []).
Proof.
  unfold onClick. destruct (querySelector doc href) as [[targetElement|]|e]; simpl.
  - split; [done|]. split; [lia|]. split; [|done].
    by intros request ->%list_elem_of_singleton.
  - split; [done|]. split; [lia|]. split; [|done]. by intros request ?%elem_of_nil.
  - split; [done|]. split; [lia|]. split; [|done]. by intros request ?%elem_of_nil.
Qed.

Lemma click_always_prevents_default_witness :
  completion (onClick Sample.document "#") = Throw SyntaxError
  ∧ defaultPrevented (onClick Sample.document "#") = true
  ∧ scrolledIntoView (onClick Sample.document "#") = [].
Proof.
  destruct (click_always_prevents_default Sample.document "#") as (Hp & _ & _ & Hthrow).
  split; [reflexivity|]. split; [exact Hp|]. apply (Hthrow SyntaxError). reflexivity.
Defined.

End AnchorScrollMore.

(** ** Parallax: a function of the offset *)

Section ParallaxMore.

(** X16: the scroll listener adds and removes no orb and computes every
    transform from the scroll offset and the orb's position alone: what an
    earlier scroll event wrote plays no part, so coming back to an offset
    brings back the same transforms, and two pages with the same number of
    orbs get the same ones. *)
Theorem parallax_depends_on_offset_only (s s' : float) (orbs orbs' : list string) :
  length (Parallax.onScroll s orbs) = length orbs
  ∧ Parallax.onScroll s (Parallax.onScroll s' orbs) = Parallax.onScroll s orbs
  ∧ (length orbs = length orbs' → Parallax.onScroll s orbs = Parallax.onScroll s orbs').
Proof.
  split; [apply length_imap|]. split.
  - apply list_eq. intros i. unfold Parallax.onScroll.
    rewrite !list_lookup_imap. by destruct (orbs !! i).
  - intros Hlen. apply list_eq. intros i. unfold Parallax.onScroll.
    rewrite !list_lookup_imap.
    destruct (orbs !! i) eqn:E, (orbs' !! i) eqn:E'; try done.
    + apply lookup_lt_Some in E. apply lookup_ge_None in E'. lia.
    + apply lookup_ge_None in E. apply lookup_lt_Some in E'. lia.
Qed.

Lemma parallax_depends_on_offset_only_witness :
  Parallax.onScroll 100 ["none"; "rotate(3deg)"]
  = Parallax.onScroll 100 [EmptyString; EmptyString].
Proof.
  apply (parallax_depends_on_offset_only 100 0 ["none"; "rotate(3deg)"]
           [EmptyString; EmptyString]).
  reflexivity.
Defined.

End ParallaxMore.
